(** * go-rfc9457: the problem document and its extension registry

    A shallow embedding of the package's decode path
    ([Response.UnmarshalJSON], [unmarshalExtension], [RegisterExtension],
    [Logger] / [EnsureLogger]) and of the encoding that the struct tags of
    [Response] select, followed by the properties the specification states
    about them.

    Conventions of the embedding.
    - A Go [string] is a byte sequence: Rocq's [string], one [ascii] per byte.
    - A Go [int] is a 64-bit integer, embedded in [Z] with its range written
      out ([int_range]).
    - A byte slice handed to a decoder is identified with what the JSON
      grammar makes of it ([Data]): either it is not a JSON text at all, or
      it is a syntax tree ([JSON]).  Escapes and whitespace are below this
      level; strings in the tree are the unescaped bytes.
    - The process-wide variables [logger] and [registeredExtensions] are the
      two fields of [World]; code that reads or writes them, or that can
      panic, lives in the monad [M]. *)

From Stdlib Require Import ZArith Ascii String List Bool Lia.
From stdpp Require Import base option list strings gmap.

Set Warnings "-register-all".

Local Open Scope string_scope.
Local Open Scope list_scope.
Local Open Scope Z_scope.

(** ** Bytes and UTF-8 (package unicode/utf8) *)

Module utf8.

Definition byte_val (c : ascii) : Z := Z.of_N (N_of_ascii c).

Definition between (lo hi : Z) (c : ascii) : bool :=
  (lo <=? byte_val c) && (byte_val c <=? hi).

Definition cont (c : ascii) : bool := between 128 191 c.

(** The second byte allowed after a three-byte lead (the accept ranges of
    [utf8.first]): no overlong forms, no surrogates. *)
Definition second_of_3 (b0 b1 : ascii) : bool :=
  if between 224 224 b0 then between 160 191 b1
  else if between 225 236 b0 then cont b1
  else if between 237 237 b0 then between 128 159 b1
  else if between 238 239 b0 then cont b1
  else false.

(** The second byte allowed after a four-byte lead: nothing overlong,
    nothing above U+10FFFF. *)
Definition second_of_4 (b0 b1 : ascii) : bool :=
  if between 240 240 b0 then between 144 191 b1
  else if between 241 243 b0 then cont b1
  else if between 244 244 b0 then between 128 143 b1
  else false.

(** [runeWidth s]: the number of bytes of the well-formed encoding at the
    head of [s]; [0] when [utf8.DecodeRuneInString] would answer
    [(RuneError, 1)] (or [s] is empty). *)
Definition runeWidth (s : string) : nat :=
  match s with
  | EmptyString => 0%nat
  | String b0 t =>
      if between 0 127 b0 then 1%nat
      else match t with
      | EmptyString => 0%nat
      | String b1 t1 =>
          if between 194 223 b0 && cont b1 then 2%nat
          else match t1 with
          | EmptyString => 0%nat
          | String b2 t2 =>
              if second_of_3 b0 b1 && cont b2 then 3%nat
              else match t2 with
              | EmptyString => 0%nat
              | String b3 _ =>
                  if second_of_4 b0 b1 && cont b2 && cont b3 then 4%nat
                  else 0%nat
              end
          end
      end
  end.

(** [utf8.ValidString], walking the bytes; [skip] counts the bytes still
    owed to the encoding whose head has been accepted. *)
Fixpoint valid_from (skip : nat) (s : string) : bool :=
  match s with
  | EmptyString => true
  | String _ t =>
      match skip with
      | S k => valid_from k t
      | O => match runeWidth s with
             | O => false
             | S k => valid_from k t
             end
      end
  end.

Definition ValidString (s : string) : bool := valid_from 0 s.

(** U+FFFD, the replacement character, as its three bytes. *)
Definition RuneError : string :=
  String (ascii_of_nat 239) (String (ascii_of_nat 191)
    (String (ascii_of_nat 189) EmptyString)).

(** What encoding/json writes for a Go string: every byte that does not
    start a well-formed encoding is replaced by U+FFFD, and decoding
    resumes at the next byte. *)
Fixpoint coerce_from (skip : nat) (s : string) : string :=
  match s with
  | EmptyString => EmptyString
  | String c t =>
      match skip with
      | S k => String c (coerce_from k t)
      | O => match runeWidth s with
             | O => (RuneError ++ coerce_from 0 t)%string
             | S k => String c (coerce_from k t)
             end
      end
  end.

Definition coerce (s : string) : string := coerce_from 0 s.

End utf8.

(** ** JSON syntax trees (encoding/json/jsontext) *)

(** A number literal: plain integer digits, or a literal with a fraction or
    an exponent, kept as [mant * 10 ^ exp]. *)
Inductive Number : Type :=
| NInt (z : Z)
| NDec (mant exp : Z).

Inductive JSON : Type :=
| JNull
| JBool (b : bool)
| JNumber (n : Number)
| JString (s : string)
| JArray (vs : list JSON)
| JObject (ms : list (string * JSON)).

(** Names of an object, in the order written. *)
Definition names (ms : list (string * JSON)) : list string := map fst ms.

(** First member with the given name. *)
Fixpoint member (k : string) (ms : list (string * JSON)) : option JSON :=
  match ms with
  | [] => None
  | (k', v) :: ms' => if String.eqb k k' then Some v else member k ms'
  end.

Fixpoint distinct (ks : list string) : bool :=
  match ks with
  | [] => true
  | k :: ks' => negb (existsb (String.eqb k) ks') && distinct ks'
  end.

(** Induction over a value and, inside it, over its elements and members. *)
Definition JSON_nested_ind (P : JSON -> Prop)
    (Hnull : P JNull)
    (Hbool : forall b, P (JBool b))
    (Hnumber : forall n, P (JNumber n))
    (Hstring : forall s, P (JString s))
    (Harray : forall vs, Forall P vs -> P (JArray vs))
    (Hobject : forall ms, Forall (fun m => P (snd m)) ms -> P (JObject ms))
  : forall v, P v :=
  fix go (v : JSON) : P v :=
    match v with
    | JNull => Hnull
    | JBool b => Hbool b
    | JNumber n => Hnumber n
    | JString s => Hstring s
    | JArray vs =>
        Harray vs
          ((fix elements (l : list JSON) : Forall P l :=
              match l with
              | [] => @List.Forall_nil _ P
              | x :: l' => @List.Forall_cons _ P x l' (go x) (elements l')
              end) vs)
    | JObject ms =>
        Hobject ms
          ((fix members (l : list (string * JSON)) : Forall (fun m => P (snd m)) l :=
              match l with
              | [] => @List.Forall_nil _ _
              | m :: l' => @List.Forall_cons _ _ m l' (go (snd m)) (members l')
              end) ms)
    end.

(** What the v2 decoder demands of any value it reads, at every depth:
    strings and names are valid UTF-8, and no object repeats a name. *)
Fixpoint jsontext_valid (v : JSON) : bool :=
  match v with
  | JNull | JBool _ | JNumber _ => true
  | JString s => utf8.ValidString s
  | JArray vs => forallb jsontext_valid vs
  | JObject ms =>
      distinct (map fst ms)
      && forallb (fun m => utf8.ValidString (fst m) && jsontext_valid (snd m)) ms
  end.

(** The bytes given to a decoder. *)
Inductive Data : Type :=
| Malformed            (* not a JSON text *)
| Text (v : JSON).

(** ** Decoding into Go values (encoding/json/v2) *)

(** The errors of a decode. [IndexError] is what
    [fmt.Errorf("failed to unmarshal extension at index %d: %w", index, err)]
    builds: the position and the wrapped cause. *)
Inductive error : Type :=
| SyntacticError                       (* not a JSON text, invalid UTF-8,
                                          or a repeated object name *)
| TypeMismatch (goType : string)       (* a JSON kind the Go type cannot take *)
| RangeError (goType : string)         (* a number the Go type cannot hold *)
| IndexError (index : nat) (cause : error).

(** A structural error is one the decoder of the fixed fields reports; it
    carries no element position. *)
Definition structural (e : error) : Prop :=
  match e with IndexError _ _ => False | _ => True end.

Definition int_range (z : Z) : Prop := - 2 ^ 63 <= z < 2 ^ 63.
Definition int_rangeb (z : Z) : bool := (- 2 ^ 63 <=? z) && (z <? 2 ^ 63).

(** [strconv.ParseFloat(_, 64)] reports a range error exactly when the
    literal rounds to an infinity, that is from [2^1024 - 2^970] on. *)
Definition float64_limit : Z := 2 ^ 1024 - 2 ^ 970.

Definition float64_fits (n : Number) : bool :=
  match n with
  | NInt z => Z.abs z <? float64_limit
  | NDec m e =>
      if 0 <=? e then Z.abs m * 10 ^ e <? float64_limit
      else Z.abs m <? float64_limit * 10 ^ (- e)
  end.

(** What [any] holds after a decode. [AFloat64 n] stands for the float64
    that [strconv.ParseFloat] makes of the literal [n]. *)
Inductive GoAny : Type :=
| ANil
| ABool (b : bool)
| AFloat64 (n : Number)
| AString (s : string)
| ASlice (xs : list GoAny)
| AMap (m : gmap string GoAny).

(** A Go value of type [map[string]any]: [None] is the nil map. *)
Definition GoMap : Type := option (gmap string GoAny).

Definition collect {A B E : Type} (f : A -> E + B) : list A -> E + list B :=
  fix go (l : list A) : E + list B :=
    match l with
    | [] => inr []
    | x :: l' =>
        match f x with
        | inl e => inl e
        | inr y => match go l' with
                   | inl e => inl e
                   | inr ys => inr (y :: ys)
                   end
        end
    end.

(** [jsonv2.Unmarshal] into a value of type [any]. *)
Fixpoint unmarshalAny (v : JSON) : error + GoAny :=
  match v with
  | JNull => inr ANil
  | JBool b => inr (ABool b)
  | JNumber n =>
      if float64_fits n then inr (AFloat64 n) else inl (RangeError "float64")
  | JString s => inr (AString s)
  | JArray vs =>
      match collect unmarshalAny vs with
      | inl e => inl e
      | inr xs => inr (ASlice xs)
      end
  | JObject ms =>
      match collect (fun m => match unmarshalAny (snd m) with
                              | inl e => inl e
                              | inr x => inr (fst m, x)
                              end) ms with
      | inl e => inl e
      | inr kvs => inr (AMap (list_to_map kvs))
      end
  end.

(** [jsonv2.Unmarshal(raw, &fallback)] with [var fallback map[string]any]:
    null leaves the nil map, an object fills a fresh map, every other kind
    is refused. *)
Definition unmarshalMap (raw : JSON) : error + GoMap :=
  if negb (jsontext_valid raw) then inl SyntacticError
  else match raw with
       | JNull => inr None
       | JObject _ =>
           match unmarshalAny raw with
           | inr (AMap m) => inr (Some m)
           | inr _ => inl (TypeMismatch "map[string]any")
           | inl e => inl e
           end
       | _ => inl (TypeMismatch "map[string]any")
       end.

(** *** The fixed fields: [responseAlias] *)

(** The local type of [UnmarshalJSON]; the extensions stay raw values. *)
Module alias.
Record responseAlias : Type := mk {
  Type_ : string;          (* `json:"type"` *)
  Title : string;          (* `json:"title"` *)
  Status : Z;              (* `json:"status"` *)
  Detail : string;         (* `json:"detail,omitempty"` *)
  Instance : string;       (* `json:"instance,omitempty"` *)
  Extensions : list JSON   (* `json:"extensions,omitempty"` *)
}.

(** [var temp responseAlias] *)
Definition zero : responseAlias := mk "" "" 0 "" "" [].
End alias.
Abbreviation responseAlias := alias.responseAlias.

(** A field of kind string (also [ErrorTypeURI], a defined string type). *)
Definition decodeString (v : JSON) : error + string :=
  match v with
  | JString s => inr s
  | JNull => inr ""
  | _ => inl (TypeMismatch "string")
  end.

(** A field of type [int]: integer digits only, within 64 bits. *)
Definition decodeInt (v : JSON) : error + Z :=
  match v with
  | JNumber (NInt z) => if int_rangeb z then inr z else inl (RangeError "int")
  | JNull => inr 0
  | _ => inl (TypeMismatch "int")
  end.

(** A field of type [[]jsontext.Value]: the elements of an array, as they
    are. *)
Definition decodeValues (v : JSON) : error + list JSON :=
  match v with
  | JArray vs => inr vs
  | JNull => inr []
  | _ => inl (TypeMismatch "[]jsontext.Value")
  end.

(** One object member against the struct tags: names match exactly, a
    member with an unknown name is skipped. *)
Definition decodeMember (temp : responseAlias) (m : string * JSON)
  : error + responseAlias :=
  let (k, v) := m in
  let '(alias.mk ty ti st de ins ex) := temp in
  if String.eqb k "type" then
    match decodeString v with inl e => inl e | inr s => inr (alias.mk s ti st de ins ex) end
  else if String.eqb k "title" then
    match decodeString v with inl e => inl e | inr s => inr (alias.mk ty s st de ins ex) end
  else if String.eqb k "status" then
    match decodeInt v with inl e => inl e | inr z => inr (alias.mk ty ti z de ins ex) end
  else if String.eqb k "detail" then
    match decodeString v with inl e => inl e | inr s => inr (alias.mk ty ti st s ins ex) end
  else if String.eqb k "instance" then
    match decodeString v with inl e => inl e | inr s => inr (alias.mk ty ti st de s ex) end
  else if String.eqb k "extensions" then
    match decodeValues v with inl e => inl e | inr vs => inr (alias.mk ty ti st de ins vs) end
  else inr temp.

Fixpoint decodeMembers (temp : responseAlias) (ms : list (string * JSON))
  : error + responseAlias :=
  match ms with
  | [] => inr temp
  | m :: ms' =>
      match decodeMember temp m with
      | inl e => inl e
      | inr temp' => decodeMembers temp' ms'
      end
  end.

(** [jsonv2.Unmarshal(data, &temp)]. Which of several errors is reported
    first is not kept apart. *)
Definition unmarshalAlias (data : Data) : error + responseAlias :=
  match data with
  | Malformed => inl SyntacticError
  | Text v =>
      if negb (jsontext_valid v) then inl SyntacticError
      else match v with
           | JNull => inr alias.zero
           | JObject ms => decodeMembers alias.zero ms
           | _ => inl (TypeMismatch "responseAlias")
           end
  end.

(** ** Process-wide state, logging and panics *)

(** A prototype given to [RegisterExtension]. Decode consults its dynamic
    type only. *)
Inductive GoType : Type :=
| TNamed (name : string)
| TPtr (elem : GoType).

Record Prototype : Type := { registeredType : GoType }.

Inductive Attr : Type :=
| ErrorAttr (e : error)      (* "error", err *)
| DataAttr (m : GoMap).      (* "data", fallback *)

(** One call of the logger's [Error] method. *)
Record LogRecord : Type := {
  message : string;
  index_attr : nat;          (* "index", i *)
  attr : Attr
}.

(** The logger behind the package variable, with the records it was
    handed so far, oldest first. *)
Record slog_Logger : Type := { records : list LogRecord }.

Record World : Type := {
  logger : option slog_Logger;             (* var logger *slog.Logger *)
  registeredExtensions : list Prototype    (* var registeredExtensions *)
}.

Inductive Outcome (A : Type) : Type :=
| Returned (a : A) (w : World)
| Panicked (msg : string).
Arguments Returned {A} a w.
Arguments Panicked {A} msg.

Definition M (A : Type) : Type := World -> Outcome A.

#[global] Instance M_ret : MRet M := fun A a w => Returned a w.
#[global] Instance M_bind : MBind M := fun A B f m w =>
  match m w with
  | Returned a w' => f a w'
  | Panicked msg => Panicked msg
  end.

Definition panic {A : Type} (msg : string) : M A := fun _ => Panicked msg.

Definition no_logger : string :=
  "Must call rfc9457.SetLogger() with a *slog.Logger before reaching this check.".


Definition EnsureLogger : M unit := fun w =>
  match logger w with
  | None => Panicked no_logger
  | Some _ => Returned tt w
  end.

Definition Logger : M unit := EnsureLogger.

(** [l.Error(msg, "index", i, key, value)] on the package's logger. *)
Definition slog_Error (msg : string) (i : nat) (a : Attr) : M unit := fun w =>
  match logger w with
  | None => Panicked "invalid memory address or nil pointer dereference"
  | Some l =>
      Returned tt
        {| logger := Some {| records := records l ++ [Build_LogRecord msg i a] |};
           registeredExtensions := registeredExtensions w |}
  end.

(** Reading [registeredExtensions]. *)
Definition registered : M (list Prototype) := fun w =>
  Returned (registeredExtensions w) w.

Definition RegisterExtension (ext : Prototype) : M unit := fun w =>
  Returned tt {| logger := logger w;
                 registeredExtensions := registeredExtensions w ++ [ext] |}.

(** ** The problem document *)

Section Document.

(** The values of the registered Go types, and how the decoder and the
    encoder of encoding/json treat them: [unmarshalInto T raw] is
    [jsonv2.Unmarshal(raw, reflect.New(T).Interface())], giving the new
    instance when the error is nil; [marshalValue T v] is [json.Marshal]
    at a value of type [T]. *)
Variable Inst : Type.
Variable unmarshalInto : GoType -> JSON -> option Inst.
Variable marshalValue : GoType -> Inst -> option JSON.
Variable marshalMap : GoMap -> option JSON.

(** [type Extension interface{}]: nil, a value of a registered type, or
    the generic mapping. *)
Inductive Extension : Type :=
| ExtNil
| ExtValue (valueType : GoType) (v : Inst)
| ExtMap (fallback : GoMap).

Record Response : Type := {
  Type_ : string;                (* `json:"type"` *)
  Title : string;                (* `json:"title"` *)
  Status : Z;                    (* `json:"status"` *)
  Detail : string;               (* `json:"detail,omitempty"` *)
  Instance : string;             (* `json:"instance,omitempty"` *)
  Extensions : list Extension    (* `json:"extensions,omitempty"` *)
}.

Definition AddExtension (r : Response) (ext : Extension) : Response :=
  {| Type_ := Type_ r; Title := Title r; Status := Status r;
     Detail := Detail r; Instance := Instance r;
     Extensions := Extensions r ++ [ext] |}.

(** *** Decode *)

(** The type an instance is made of: the registered type, or what it
    points to. *)
Definition valueTypeOf (registeredExt : Prototype) : GoType :=
  match registeredType registeredExt with
  | TPtr elem => elem
  | t => t
  end.

(** The loop over [registeredExtensions]: the first type that takes
    [raw] without error ends it. *)
Fixpoint tryRegistered (regs : list Prototype) (raw : JSON) : option Extension :=
  match regs with
  | [] => None
  | registeredExt :: rest =>
      let valueType := valueTypeOf registeredExt in
      match unmarshalInto valueType raw with
      | Some newExt => Some (ExtValue valueType newExt)
      | None => tryRegistered rest raw
      end
  end.

Definition unmarshalExtension (raw : JSON) (index : nat)
  : M (Extension * option error) :=
  regs ← registered;
  match tryRegistered regs raw with
  | Some ext => mret (ext, None)
  | None =>
      match unmarshalMap raw with
      | inl err => mret (ExtNil, Some (IndexError index err))
      | inr fallback =>
          Logger;;
          slog_Error
            "Extension did not match any registered type, using map[string]any"
            index (DataAttr fallback);;
          mret (ExtMap fallback, None)
      end
  end.

(** The loop of [UnmarshalJSON] from element [i] on. *)
Fixpoint unmarshalExtensions (raws : list JSON) (i : nat) (r : Response)
  : M Response :=
  match raws with
  | [] => mret r
  | raw :: rest =>
      '(ext, err) ← unmarshalExtension raw i;
      match err with
      | Some e =>
          Logger;;
          slog_Error "Failed to unmarshal extension" i (ErrorAttr e)
      | None => mret tt
      end;;
      unmarshalExtensions rest (S i) (AddExtension r ext)
  end.

Definition UnmarshalJSON (r : Response) (data : Data)
  : M (Response * option error) :=
  match unmarshalAlias data with
  | inl err => mret (r, Some err)
  | inr temp =>
      let r := {| Type_ := alias.Type_ temp;
                  Title := alias.Title temp;
                  Status := alias.Status temp;
                  Detail := alias.Detail temp;
                  Instance := alias.Instance temp;
                  Extensions := [] |} in
      r ← unmarshalExtensions (alias.Extensions temp) 0 r;
      mret (r, None)
  end.

(** *** Encode *)

Definition marshalExtension (ext : Extension) : option JSON :=
  match ext with
  | ExtNil => Some JNull
  | ExtValue t v => marshalValue t v
  | ExtMap m => marshalMap m
  end.

Fixpoint marshalExtensions (exts : list Extension) : option (list JSON) :=
  match exts with
  | [] => Some []
  | ext :: rest =>
      match marshalExtension ext, marshalExtensions rest with
      | Some v, Some vs => Some (v :: vs)
      | _, _ => None
      end
  end.

Definition omitempty_string (name s : string) : list (string * JSON) :=
  if String.eqb s "" then [] else [(name, JString (utf8.coerce s))].

(** [json.Marshal] at a [Response], field by field in the order of the
    struct; [None] when an extension cannot be encoded. *)
Definition marshalResponse (r : Response) : option JSON :=
  match marshalExtensions (Extensions r) with
  | None => None
  | Some vs =>
      Some (JObject
        ([("type", JString (utf8.coerce (Type_ r)));
          ("title", JString (utf8.coerce (Title r)));
          ("status", JNumber (NInt (Status r)))]
         ++ omitempty_string "detail" (Detail r)
         ++ omitempty_string "instance" (Instance r)
         ++ match Extensions r with
            | [] => []
            | _ :: _ => [("extensions", JArray vs)]
            end))
  end.

End Document.

Arguments ExtNil {Inst}.
Arguments ExtValue {Inst} valueType v.
Arguments ExtMap {Inst} fallback.
Arguments Type_ {Inst} r.
Arguments Title {Inst} r.
Arguments Status {Inst} r.
Arguments Detail {Inst} r.
Arguments Instance {Inst} r.
Arguments Extensions {Inst} r.
Arguments Build_Response {Inst}.
Arguments AddExtension {Inst} r ext.
Arguments tryRegistered {Inst} unmarshalInto regs raw.
Arguments unmarshalExtension {Inst} unmarshalInto raw index.
Arguments unmarshalExtensions {Inst} unmarshalInto raws i r.
Arguments UnmarshalJSON {Inst} unmarshalInto r data.
Arguments marshalExtension {Inst} marshalValue marshalMap ext.
Arguments marshalExtensions {Inst} marshalValue marshalMap exts.
Arguments marshalResponse {Inst} marshalValue marshalMap r.

(** ** What one element and one array come to

    Summaries of [unmarshalExtension] and of the loop around it, used to
    state the properties: the entry an element leaves in the extension
    sequence and the records it causes. *)

Section Summary.

Context {Inst : Type} (unmarshalInto : GoType -> JSON -> option Inst).

Definition notice (i : nat) (fallback : GoMap) : LogRecord :=
  {| message := "Extension did not match any registered type, using map[string]any";
     index_attr := i; attr := DataAttr fallback |}.

Definition failure (i : nat) (err : error) : LogRecord :=
  {| message := "Failed to unmarshal extension";
     index_attr := i; attr := ErrorAttr err |}.

(** No registered type takes [raw]. *)
Definition unmatched (regs : list Prototype) (raw : JSON) : Prop :=
  tryRegistered unmarshalInto regs raw = None.

(** The element fails: no registered type takes it and the generic
    mapping refuses it. *)
Definition fails (regs : list Prototype) (raw : JSON) : Prop :=
  unmatched regs raw /\ exists err, unmarshalMap raw = inl err.

(** The element resolves: a registered type or the generic mapping takes
    it. *)
Definition resolves (regs : list Prototype) (raw : JSON) : Prop :=
  is_Some (tryRegistered unmarshalInto regs raw)
  \/ exists fallback, unmarshalMap raw = inr fallback.

Definition entry (regs : list Prototype) (raw : JSON) : Extension Inst :=
  match tryRegistered unmarshalInto regs raw with
  | Some ext => ext
  | None => match unmarshalMap raw with
            | inl _ => ExtNil
            | inr fallback => ExtMap fallback
            end
  end.

Definition logged (regs : list Prototype) (raw : JSON) (i : nat)
  : list LogRecord :=
  match tryRegistered unmarshalInto regs raw with
  | Some _ => []
  | None => match unmarshalMap raw with
            | inl err => [failure i (IndexError i err)]
            | inr fallback => [notice i fallback]
            end
  end.

Fixpoint logged_from (regs : list Prototype) (raws : list JSON) (i : nat)
  : list LogRecord :=
  match raws with
  | [] => []
  | raw :: rest => logged regs raw i ++ logged_from regs rest (S i)
  end.

Definition is_nil (ext : Extension Inst) : bool :=
  match ext with ExtNil => true | _ => false end.

(** The document [UnmarshalJSON] builds from the fixed fields and the
    entries of the elements. *)
Definition document (temp : responseAlias) (exts : list (Extension Inst))
  : Response Inst :=
  {| Type_ := alias.Type_ temp; Title := alias.Title temp;
     Status := alias.Status temp; Detail := alias.Detail temp;
     Instance := alias.Instance temp; Extensions := exts |}.

(** [r] after [exts] were appended one by one. *)
Definition appended (r : Response Inst) (exts : list (Extension Inst))
  : Response Inst :=
  {| Type_ := Type_ r; Title := Title r; Status := Status r;
     Detail := Detail r; Instance := Instance r;
     Extensions := Extensions r ++ exts |}.

End Summary.

(** The world after the logger was handed [recs]. *)
Definition with_records (w : World) (l : slog_Logger) (recs : list LogRecord)
  : World :=
  {| logger := Some {| records := records l ++ recs |};
     registeredExtensions := registeredExtensions w |}.

(** Every number literal, at any depth, fits a float64. *)
Fixpoint numbers_fit (v : JSON) : bool :=
  match v with
  | JNumber n => float64_fits n
  | JArray vs => forallb numbers_fit vs
  | JObject ms => forallb (fun m => numbers_fit (snd m)) ms
  | _ => true
  end.

(** The value of type [any] a JSON value decodes to, if it does. *)
Definition any_of (v : JSON) : option GoAny :=
  match unmarshalAny v with inr x => Some x | inl _ => None end.

(** A member that the fixed field of its name cannot take. *)
Definition violates (m : string * JSON) : bool :=
  let (k, v) := m in
  if String.eqb k "type" || String.eqb k "title"
     || String.eqb k "detail" || String.eqb k "instance" then
    match v with JString _ | JNull => false | _ => true end
  else if String.eqb k "status" then
    match v with
    | JNumber (NInt z) => negb (int_rangeb z)
    | JNull => false
    | _ => true
    end
  else if String.eqb k "extensions" then
    match v with JArray _ | JNull => false | _ => true end
  else false.

(** ** Two registered types, for the examples

    [type ErrorCode struct { Code int `json:"code"`; Message string `json:"message"` }]
    and [type Retry struct { After int `json:"after"` }]: a struct takes null
    and any object whose members of a known name have the kind of the field;
    members of other names are skipped. *)
Module Example.

Inductive Inst : Type :=
| ErrorCode (Code : Z) (Message : string)
| Retry (After : Z).

Fixpoint intoErrorCode (code : Z) (msg : string) (ms : list (string * JSON))
  : option Inst :=
  match ms with
  | [] => Some (ErrorCode code msg)
  | (k, v) :: ms' =>
      if String.eqb k "code" then
        match decodeInt v with
        | inr z => intoErrorCode z msg ms'
        | inl _ => None
        end
      else if String.eqb k "message" then
        match decodeString v with
        | inr s => intoErrorCode code s ms'
        | inl _ => None
        end
      else intoErrorCode code msg ms'
  end.

Fixpoint intoRetry (after : Z) (ms : list (string * JSON)) : option Inst :=
  match ms with
  | [] => Some (Retry after)
  | (k, v) :: ms' =>
      if String.eqb k "after" then
        match decodeInt v with
        | inr z => intoRetry z ms'
        | inl _ => None
        end
      else intoRetry after ms'
  end.

Definition unmarshalInto (t : GoType) (raw : JSON) : option Inst :=
  match t, raw with
  | TNamed name, JNull =>
      if String.eqb name "ErrorCode" then Some (ErrorCode 0 "")
      else if String.eqb name "Retry" then Some (Retry 0)
      else None
  | TNamed name, JObject ms =>
      if String.eqb name "ErrorCode" then intoErrorCode 0 "" ms
      else if String.eqb name "Retry" then intoRetry 0 ms
      else None
  | _, _ => None
  end.

Definition marshalValue (t : GoType) (v : Inst) : option JSON :=
  match v with
  | ErrorCode c m =>
      Some (JObject [("code", JNumber (NInt c)); ("message", JString (utf8.coerce m))])
  | Retry a => Some (JObject [("after", JNumber (NInt a))])
  end.

Definition marshalMap (m : GoMap) : option JSON := None.

Definition protoErrorCode : Prototype := {| registeredType := TPtr (TNamed "ErrorCode") |}.
Definition protoRetry : Prototype := {| registeredType := TNamed "Retry" |}.

(** A process with a logger set and nothing registered. *)
Definition quiet : World :=
  {| logger := Some {| records := [] |}; registeredExtensions := [] |}.

(** A process where [SetLogger] was never called. *)
Definition unset : World :=
  {| logger := None; registeredExtensions := [] |}.

Definition blank : Response Inst :=
  {| Type_ := ""; Title := ""; Status := 0; Detail := ""; Instance := "";
     Extensions := [] |}.

Definition problem (exts : list JSON) : Data :=
  Text (JObject [("type", JString "about:blank"); ("title", JString "Conflict");
                 ("status", JNumber (NInt 409)); ("extensions", JArray exts)]).

Definition first : JSON := JObject [("code", JNumber (NInt 5)); ("message", JString "x")].
Definition third : JSON := JObject [("foo", JString "bar")].

(** [[{"code":5,"message":"x"}, 42, {"foo":"bar"}]] *)
Definition three : list JSON := [first; JNumber (NInt 42); third].

(** [{"n":1e999}] *)
Definition huge : JSON := JObject [("n", JNumber (NDec 1 999))].

(** The one byte 0xFF, which is not UTF-8. *)
Definition xFF : string := String (ascii_of_nat 255) EmptyString.

(** The fixed fields of [problem exts]. *)
Definition fields (exts : list JSON) : responseAlias :=
  alias.mk "about:blank" "Conflict" 409 "" "" exts.

(** A process with a logger set and both types registered, the pointer
    to [ErrorCode] first. *)
Definition typed : World :=
  {| logger := Some {| records := [] |};
     registeredExtensions := [protoErrorCode; protoRetry] |}.

(** The same registry in a process without a logger. *)
Definition typed_unset : World :=
  {| logger := None; registeredExtensions := [protoErrorCode; protoRetry] |}.

Definition minimal : Response Inst :=
  {| Type_ := "about:blank"; Title := "Conflict"; Status := 409;
     Detail := ""; Instance := ""; Extensions := [] |}.

Definition detailed : Response Inst :=
  {| Type_ := "about:blank"; Title := "Conflict"; Status := 409;
     Detail := "already exists"; Instance := "/items/7"; Extensions := [] |}.

(** A title that is not UTF-8. *)
Definition garbled : Response Inst :=
  {| Type_ := "about:blank"; Title := xFF; Status := 409;
     Detail := ""; Instance := ""; Extensions := [] |}.

(** [{"type":"about:blank","title":"Conflict","status":"409"}] *)
Definition quoted_status : list (string * JSON) :=
  [("type", JString "about:blank"); ("title", JString "Conflict");
   ("status", JString "409"); ("extensions", JArray three)].

End Example.

From Stdlib Require Import DecimalString.

(** ** More summaries *)

(** The names the struct tags of [responseAlias] know. *)
Definition fixed_name (k : string) : bool :=
  String.eqb k "type" || String.eqb k "title" || String.eqb k "status"
  || String.eqb k "detail" || String.eqb k "instance"
  || String.eqb k "extensions".

Section Counting.

Context {Inst : Type} (unmarshalInto : GoType -> JSON -> option Inst).

(** No registered type takes [raw], as a test. *)
Definition unmatchedb (regs : list Prototype) (raw : JSON) : bool :=
  match tryRegistered unmarshalInto regs raw with
  | Some _ => false
  | None => true
  end.

End Counting.

(** Two outcomes that agree on everything but the registry of the process
    they leave. *)
Definition same_but_registry {A : Type} (o o' : Outcome A) : Prop :=
  match o, o' with
  | Returned a w, Returned a' w' => a = a' /\ logger w = logger w'
  | Panicked msg, Panicked msg' => msg = msg'
  | _, _ => False
  end.

(** The records of the logger of a process, none when there is no logger. *)
Definition records_of (w : World) : list LogRecord :=
  match logger w with
  | Some l => records l
  | None => []
  end.

(** What a field of kind string, int or [[]jsontext.Value] holds after a
    member was taken: the value of the member, the zero value for null, and
    what it held before ([d]) when there is no member. *)
Definition string_or (d : string) (o : option JSON) : string :=
  match o with
  | Some (JString s) => s
  | Some _ => ""
  | None => d
  end.

Definition int_or (d : Z) (o : option JSON) : Z :=
  match o with
  | Some (JNumber (NInt z)) => z
  | Some _ => 0
  | None => d
  end.

Definition values_or (d : list JSON) (o : option JSON) : list JSON :=
  match o with
  | Some (JArray vs) => vs
  | Some _ => []
  | None => d
  end.

(** The fixed fields read off an object by name, over those of [t]. *)
Definition alias_from (t : responseAlias) (ms : list (string * JSON))
  : responseAlias :=
  alias.mk (string_or (alias.Type_ t) (member "type" ms))
           (string_or (alias.Title t) (member "title" ms))
           (int_or (alias.Status t) (member "status" ms))
           (string_or (alias.Detail t) (member "detail" ms))
           (string_or (alias.Instance t) (member "instance" ms))
           (values_or (alias.Extensions t) (member "extensions" ms)).

Definition alias_of (ms : list (string * JSON)) : responseAlias :=
  alias_from alias.zero ms.

Section Coerced.

Context {Inst : Type}.

(** [r] with every string as encoding/json writes it. *)
Definition coerced (r : Response Inst) : Response Inst :=
  {| Type_ := utf8.coerce (Type_ r); Title := utf8.coerce (Title r);
     Status := Status r; Detail := utf8.coerce (Detail r);
     Instance := utf8.coerce (Instance r); Extensions := Extensions r |}.

End Coerced.

(** ** Formatting: package fmt and [SprintfMany] *)

(** The line feed, the separator [Error] uses. *)
Definition LF : string := String (ascii_of_nat 10) EmptyString.

(** The values handed to [SprintfMany] and on to [fmt.Sprintf]. *)
Inductive Param : Type :=
| PString (s : string)                    (* a string *)
| PInt (z : Z)                            (* an int *)
| PNamed (goType : string) (s : string)   (* a defined string type *)
| PSlice (ps : list Param).               (* a []any *)

(** The dynamic type, as a failed type assertion names it. *)
Definition typeName (p : Param) : string :=
  match p with
  | PString _ => "string"
  | PInt _ => "int"
  | PNamed goType _ => goType
  | PSlice _ => "[]interface {}"
  end.

(** [%d] of an int. *)
Definition decimal (z : Z) : string := NilZero.string_of_int (Z.to_int z).

(** One verb at one operand, for the verbs and operands modelled here:
    [%s] and [%v] write a string as it is, [%d] and [%v] write an int in
    decimal. *)
Definition verb (v : ascii) (a : Param) : option string :=
  match a with
  | PString s | PNamed _ s =>
      if Ascii.eqb v "s" || Ascii.eqb v "v" then Some s else None
  | PInt z =>
      if Ascii.eqb v "d" || Ascii.eqb v "v" then Some (decimal z) else None
  | PSlice _ => None
  end.

(** [fmt.Sprintf] on the part of its language that is modelled: plain
    bytes, [%%], and the verbs of [verb], each with an operand of its own
    and no operand left over. [None] outside that part (flags, widths,
    other verbs or operands, missing or extra operands). *)
Fixpoint sprintf (format : string) (args : list Param) : option string :=
  match format with
  | EmptyString =>
      match args with
      | [] => Some EmptyString
      | _ :: _ => None
      end
  | String c rest =>
      if Ascii.eqb c "%" then
        match rest with
        | EmptyString => None
        | String v rest' =>
            if Ascii.eqb v "%" then
              option_map (String "%") (sprintf rest' args)
            else
              match args with
              | [] => None
              | a :: args' =>
                  match verb v a with
                  | None => None
                  | Some out =>
                      option_map (String.append out) (sprintf rest' args')
                  end
              end
        end
      else option_map (String c) (sprintf rest args)
  end.

(** No byte of [s] is a percent sign. *)
Fixpoint no_percent (s : string) : bool :=
  match s with
  | EmptyString => true
  | String c rest => negb (Ascii.eqb c "%") && no_percent rest
  end.

(** The entries at the even positions are strings. *)
Fixpoint formats_are_strings (params : list Param) : bool :=
  match params with
  | PString _ :: _ :: rest => formats_are_strings rest
  | _ :: _ :: _ => false
  | _ => true
  end.

(** Formats and values laid out as [SprintfMany] takes them. *)
Fixpoint interleave (formats : list string) (values : list Param) : list Param :=
  match formats, values with
  | f :: formats', v :: values' => PString f :: v :: interleave formats' values'
  | _, _ => []
  end.

Section Formatting.

(** [fmt.Sprintf] itself. *)
Variable Sprintf : string -> list Param -> string.

(** The loop of [SprintfMany]: two entries at a time, the first asserted
    to be a string and written to the builder with the separator, the
    second kept as an operand. *)
Fixpoint writePairs (sep : string) (params : list Param)
    (sb : string) (args : list Param) : M (string * list Param) :=
  match params with
  | p :: v :: rest =>
      match p with
      | PString s => writePairs sep rest (sb ++ s ++ sep)%string (args ++ [v])
      | _ =>
          panic ("interface conversion: interface {} is " ++ typeName p
                 ++ ", not string")%string
      end
  | _ => mret (sb, args)
  end.

Definition SprintfMany (prefix sep : string) (params : list Param) : M string :=
  match params with
  | [] => mret prefix
  | _ :: _ =>
      if Nat.odd (length params) then
        panic (Sprintf "SprintfMany() needs an even number of arguments: %v"
                 [PSlice params])
      else
        '(format, args) ← writePairs sep params (prefix ++ sep)%string [];
        mret (Sprintf format args)
  end.

(** [func (r *Response) Error() string] *)
Definition Error {Inst : Type} (r : Response Inst) : M string :=
  SprintfMany (Title r) LF
    [PString "title=%s"; PString (Title r);
     PString "error_type=%s"; PNamed "rfc9457.ErrorTypeURI" (Type_ r);
     PString "error_detail=%s"; PString (Detail r);
     PString "http_status=%d"; PInt (Status r);
     PString "instance=%s"; PString (Instance r)].

End Formatting.

(** A [Sprintf] that is [sprintf] where that is defined. *)
Definition Sprintf_modelled (format : string) (args : list Param) : string :=
  match sprintf format args with
  | Some s => s
  | None => EmptyString
  end.

(** ** The catalog of error types (error_type_url.go) *)

Module ErrorTypes.

Definition ErrorTypeRootURI : string := "https://schema.xmlui.org/errors".
Definition TestServerAPIPath : string := "/test-server/api".

Definition uri : string := ErrorTypeRootURI.
Definition path : string := TestServerAPIPath.

Definition InvalidParameterErrorType : string :=
  (uri ++ path ++ "/validation/invalid-parameter-type")%string.
Definition ConstraintViolationErrorType : string :=
  (uri ++ path ++ "/validation/constraint-violation")%string.
Definition MissingParametersErrorType : string :=
  (uri ++ path ++ "/validation/missing-required-parameters")%string.
Definition CurrentlyUnhandledErrorType : string :=
  (uri ++ path ++ "/validation/currently-unhandled")%string.
Definition UnauthorizedErrorType : string :=
  (uri ++ path ++ "/validation/unauthorized")%string.
Definition InvalidBodyFormatErrorType : string :=
  (uri ++ path ++ "/validation/invalid-body-format")%string.
Definition InvalidURLFormatErrorType : string :=
  (uri ++ path ++ "/validation/invalid-url-format")%string.
Definition InvalidURLParameterErrorType : string :=
  (uri ++ path ++ "/validation/invalid-url-parameter")%string.
Definition InvalidDBQueryErrorType : string :=
  (uri ++ path ++ "/validation/invalid-database-query")%string.
Definition InternalServerErrorType : string :=
  (uri ++ path ++ "/server/internal")%string.
Definition EndpointNotMatchedErrorType : string :=
  (uri ++ path ++ "/routing/endpoint-not-matched")%string.
Definition NoResultsErrorType : string :=
  (uri ++ path ++ "/database/no-results")%string.
Definition CardinalityMismatchErrorType : string :=
  (uri ++ path ++ "/routing/cardinality-mismatch")%string.
Definition MethodNotAllowedErrorType : string :=
  (uri ++ path ++ "/routing/method-not-allowed")%string.
Definition QueryFailedErrorType : string :=
  (uri ++ path ++ "/database/query-failed")%string.

(** The fifteen error types, in the order of the file. *)
Definition all : list string :=
  [InvalidParameterErrorType; ConstraintViolationErrorType;
   MissingParametersErrorType; CurrentlyUnhandledErrorType;
   UnauthorizedErrorType; InvalidBodyFormatErrorType;
   InvalidURLFormatErrorType; InvalidURLParameterErrorType;
   InvalidDBQueryErrorType; InternalServerErrorType;
   EndpointNotMatchedErrorType; NoResultsErrorType;
   CardinalityMismatchErrorType; MethodNotAllowedErrorType;
   QueryFailedErrorType].

End ErrorTypes.

(** ** Ranging over a string, and the checks of the example server *)

(** The rune at the head of [s], as [utf8.DecodeRuneInString] gives it:
    the code point of a well-formed encoding, U+FFFD otherwise. *)
Definition decodeRune (s : string) : Z :=
  match s with
  | EmptyString => 65533
  | String b0 t =>
      match utf8.runeWidth s, t with
      | 1%nat, _ => utf8.byte_val b0
      | 2%nat, String b1 _ =>
          (utf8.byte_val b0 mod 32) * 64 + utf8.byte_val b1 mod 64
      | 3%nat, String b1 (String b2 _) =>
          (utf8.byte_val b0 mod 16) * 4096 + (utf8.byte_val b1 mod 64) * 64
          + utf8.byte_val b2 mod 64
      | 4%nat, String b1 (String b2 (String b3 _)) =>
          (utf8.byte_val b0 mod 8) * 262144 + (utf8.byte_val b1 mod 64) * 4096
          + (utf8.byte_val b2 mod 64) * 64 + utf8.byte_val b3 mod 64
      | _, _ => 65533
      end
  end.

(** The runes [for _, c := range s] goes through; [skip] counts the bytes
    that belong to the rune just given. *)
Fixpoint range_from (skip : nat) (s : string) : list Z :=
  match s with
  | EmptyString => []
  | String _ t =>
      match skip with
      | S k => range_from k t
      | O => decodeRune s :: range_from (Nat.pred (utf8.runeWidth s)) t
      end
  end.

Definition range (s : string) : list Z := range_from 0 s.

(** A loop that returns false at the first rune that is [bad], and true
    when there is none. *)
Fixpoint noneBad (bad : Z -> bool) (cs : list Z) : bool :=
  match cs with
  | [] => true
  | c :: rest => if bad c then false else noneBad bad rest
  end.

(** [c < '0' || c > '9'] *)
Definition notDigit (c : Z) : bool := (c <? 48) || (57 <? c).

Definition isNumeric (s : string) : bool :=
  if String.eqb s "" then false
  else noneBad notDigit (range s).

Definition isValidScore (s : string) : bool :=
  if negb (isNumeric s) then false
  else if (3 <? String.length s)%nat then false
  else true.

(** The condition of [isValidSlug], negated as in the source. *)
Definition notSlugRune (c : Z) : bool :=
  negb (((97 <=? c) && (c <=? 122)) || ((65 <=? c) && (c <=? 90))
        || ((48 <=? c) && (c <=? 57)) || (c =? 45) || (c =? 95)).

Definition isValidSlug (s : string) : bool :=
  if String.eqb s "" then false
  else noneBad notSlugRune (range s).

(** Every byte of [s] passes [ok]. *)
Fixpoint everyByte (ok : Z -> bool) (s : string) : bool :=
  match s with
  | EmptyString => true
  | String b t => ok (utf8.byte_val b) && everyByte ok t
  end.

(** The bytes 0 to 9. *)
Definition isDigitByte (b : Z) : bool := (48 <=? b) && (b <=? 57).

(** The ASCII letters and digits, the hyphen and the underscore. *)
Definition isSlugByte (b : Z) : bool :=
  ((97 <=? b) && (b <=? 122)) || ((65 <=? b) && (b <=? 90))
  || ((48 <=? b) && (b <=? 57)) || (b =? 45) || (b =? 95).

(** ** The corpus helpers of the tests *)

(** The separator of the corpus parameters, the byte 0. *)
Definition NUL : ascii := Ascii.zero.

(** [strings.Split(s, sep)] for a separator of one byte. *)
Fixpoint Split (sep : ascii) (s : string) : list string :=
  match s with
  | EmptyString => [EmptyString]
  | String c t =>
      if Ascii.eqb c sep then EmptyString :: Split sep t
      else match Split sep t with
           | p :: ps => String c p :: ps
           | [] => [String c EmptyString]
           end
  end.

(** [strings.Join(elems, sep)] for a separator of one byte. *)
Definition Join (elems : list string) (sep : ascii) : string :=
  String.concat (String sep EmptyString) elems.

(** [for len(parts) < expectedCount { parts = append(parts, "") }], with
    the number of rounds still to go. *)
Fixpoint pad (rounds : nat) (parts : list string) : list string :=
  match rounds with
  | O => parts
  | S k => pad k (parts ++ [EmptyString])
  end.

Definition parseCorpusParts (input : string) (expectedCount : Z)
  : M (list string) :=
  let parts := Split NUL input in
  let len := Z.of_nat (length parts) in
  if len =? expectedCount then mret parts
  else if len <? expectedCount then
    mret (pad (Z.to_nat (expectedCount - len)) parts)
  else if expectedCount <? 0 then
    panic ("runtime error: slice bounds out of range [:"
           ++ decimal expectedCount ++ "]")%string
  else mret (take (Z.to_nat expectedCount) parts).

(** The byte [c] occurs in [s]. *)
Fixpoint hasByte (c : ascii) (s : string) : bool :=
  match s with
  | EmptyString => false
  | String x t => Ascii.eqb x c || hasByte c t
  end.


(** * Properties *)

(** ** Strings *)

Lemma coerce_from_valid (s : string) :
  forall skip, utf8.valid_from skip s = true -> utf8.coerce_from skip s = s.
Proof.
  induction s as [|c t IH]; intros skip Hv; [reflexivity|].
  cbn [utf8.valid_from utf8.coerce_from] in *.
  destruct skip as [|k].
  - destruct (utf8.runeWidth (String c t)) as [|k]; [discriminate|].
    f_equal. now apply IH.
  - f_equal. now apply IH.
Qed.

Lemma coerce_valid (s : string) :
  utf8.ValidString s = true -> utf8.coerce s = s.
Proof. apply coerce_from_valid. Qed.

Lemma name_valid_type : utf8.ValidString "type" = true.
Proof. vm_compute. reflexivity. Qed.

Lemma name_valid_title : utf8.ValidString "title" = true.
Proof. vm_compute. reflexivity. Qed.

Lemma name_valid_status : utf8.ValidString "status" = true.
Proof. vm_compute. reflexivity. Qed.

Lemma name_valid_detail : utf8.ValidString "detail" = true.
Proof. vm_compute. reflexivity. Qed.

Lemma name_valid_instance : utf8.ValidString "instance" = true.
Proof. vm_compute. reflexivity. Qed.

(** ** The generic mapping *)

Lemma unmarshalAny_fits (v : JSON) :
  numbers_fit v = true -> exists x, unmarshalAny v = inr x.
Proof.
  induction v as [| b | n | s | vs IH | ms IH] using JSON_nested_ind;
    cbn [numbers_fit unmarshalAny]; intros Hfit; eauto.
  - rewrite Hfit. eauto.
  - assert (exists xs, collect unmarshalAny vs = inr xs) as [xs ->]; [|eauto].
    induction IH as [|v vs Hv _ IHvs]; cbn in *; [eauto|].
    apply andb_prop in Hfit as [Hv' Hvs'].
    destruct (Hv Hv') as [x ->]. destruct (IHvs Hvs') as [xs ->]. eauto.
  - match goal with |- context [collect ?f ms] =>
      assert (exists kvs, collect f ms = inr kvs) as [kvs ->]; [|eauto] end.
    induction IH as [|m ms Hm _ IHms]; cbn in *; [eauto|].
    apply andb_prop in Hfit as [Hm' Hms'].
    destruct (Hm Hm') as [x ->]. destruct (IHms Hms') as [kvs ->]. eauto.
Qed.

(** The map an object decodes to holds, under each name, what the first
    member of that name decodes to. *)
Lemma unmarshalAny_object (ms : list (string * JSON)) :
  numbers_fit (JObject ms) = true ->
  exists m : gmap string GoAny,
    unmarshalAny (JObject ms) = inr (AMap m)
    /\ forall k, m !! k = member k ms ≫= any_of.
Proof.
  cbn [numbers_fit unmarshalAny]. intros Hfit.
  match goal with |- context [collect ?f ms] =>
    assert (exists kvs, collect f ms = inr kvs
              /\ forall k, (list_to_map kvs : gmap string GoAny) !! k
                           = member k ms ≫= any_of) as (kvs & -> & Hk) end.
  2: { eauto. }
  induction ms as [|[k' v] ms IH]; cbn in *.
  - exists []. split; [reflexivity|]. intros k. apply lookup_empty.
  - apply andb_prop in Hfit as [Hv Hms].
    destruct (unmarshalAny_fits v Hv) as [x Hx]. rewrite Hx.
    destruct (IH Hms) as (kvs & -> & Hk).
    exists ((k', x) :: kvs). split; [reflexivity|]. intros k. cbn.
    destruct (String.eqb_spec k k') as [->|Hne].
    + rewrite lookup_insert_eq. cbn. unfold any_of. now rewrite Hx.
    + rewrite lookup_insert_ne by congruence. apply Hk.
Qed.

Lemma unmarshalMap_object (ms : list (string * JSON)) :
  jsontext_valid (JObject ms) = true ->
  numbers_fit (JObject ms) = true ->
  exists m : gmap string GoAny,
    unmarshalMap (JObject ms) = inr (Some m)
    /\ forall k, m !! k = member k ms ≫= any_of.
Proof.
  intros Hvalid Hfit. destruct (unmarshalAny_object ms Hfit) as (m & Hm & Hk).
  exists m. split; [|exact Hk]. unfold unmarshalMap. now rewrite Hvalid, Hm.
Qed.

(** ** The fixed fields *)

Lemma decodeMembers_structural (ms : list (string * JSON)) :
  forall temp err, decodeMembers temp ms = inl err -> structural err.
Proof.
  induction ms as [|[k v] ms IH]; intros temp err; cbn [decodeMembers];
    [discriminate|].
  destruct (decodeMember temp (k, v)) as [e|temp'] eqn:Hm; [|apply IH].
  intros [= <-]. destruct temp. cbn in Hm.
  repeat match type of Hm with
         | (if ?c then _ else _) = _ => destruct c
         end;
    destruct v as [| |[z|m e']| | |]; cbn in Hm;
    try destruct (int_rangeb z); now inversion Hm.
Qed.

Lemma unmarshalAlias_structural (data : Data) err :
  unmarshalAlias data = inl err -> structural err.
Proof.
  destruct data as [|v]; cbn; [now intros [= <-]|].
  destruct (jsontext_valid v); cbn; [|now intros [= <-]].
  destruct v; try (now intros [= <-]).
  apply decodeMembers_structural.
Qed.

Lemma decodeMember_violates temp (m : string * JSON) :
  violates m = true -> exists err, decodeMember temp m = inl err.
Proof.
  destruct m as [k v], temp. unfold violates, decodeMember.
  assert (Hstr : forall (A : Type) (f : string -> A),
            match v with JString _ | JNull => false | _ => true end = true ->
            exists err, match decodeString v with
                        | inl e => inl e
                        | inr s => inr (f s)
                        end = inl err).
  { intros A f. destruct v; try discriminate; intros _; eexists; reflexivity. }
  destruct (String.eqb_spec k "type") as [->|_]; cbn [orb]; [apply Hstr|].
  destruct (String.eqb_spec k "title") as [->|_]; cbn [orb]; [apply Hstr|].
  destruct (String.eqb_spec k "status") as [->|_].
  { cbn. destruct v as [| |[z|mant e]| | |]; try discriminate;
      cbn; try (intros _; eexists; reflexivity).
    destruct (int_rangeb z); [discriminate|intros _; eexists; reflexivity]. }
  destruct (String.eqb_spec k "detail") as [->|_]; cbn [orb]; [apply Hstr|].
  destruct (String.eqb_spec k "instance") as [->|_]; cbn [orb]; [apply Hstr|].
  destruct (String.eqb_spec k "extensions") as [->|_]; [|discriminate].
  destruct v; try discriminate; intros _; eexists; reflexivity.
Qed.

Lemma decodeMembers_violates (ms : list (string * JSON)) :
  Exists (fun m => violates m = true) ms ->
  forall temp, exists err, decodeMembers temp ms = inl err.
Proof.
  induction ms as [|m ms IH]; intros Hex temp; [inversion Hex|].
  cbn [decodeMembers].
  destruct (decodeMember temp m) as [e|temp'] eqn:Hm; [eauto|].
  inversion Hex as [? ? Hhd|? ? Htl]; subst.
  - destruct (decodeMember_violates temp m Hhd) as [e He]. congruence.
  - apply IH, Htl.
Qed.

(** ** One element *)

Section Element.

Context {Inst : Type} (unmarshalInto : GoType -> JSON -> option Inst).


Lemma tryRegistered_None (regs : list Prototype) (raw : JSON) :
  tryRegistered unmarshalInto regs raw = None <->
  Forall (fun q => unmarshalInto (valueTypeOf q) raw = None) regs.
Proof.
  induction regs as [|q regs IH]; cbn.
  - split; [constructor | reflexivity].
  - destruct (unmarshalInto (valueTypeOf q) raw) eqn:E.
    + split; [discriminate | inversion 1; congruence].
    + rewrite IH. split; [now constructor | now inversion 1].
Qed.

Lemma tryRegistered_not_nil (regs : list Prototype) (raw : JSON) ext :
  tryRegistered unmarshalInto regs raw = Some ext -> is_nil ext = false.
Proof.
  induction regs as [|q regs IH]; cbn; [discriminate|].
  destruct (unmarshalInto (valueTypeOf q) raw); [|exact IH].
  now intros [= <-].
Qed.

Lemma unmarshalExtension_matched raw i w ext :
  tryRegistered unmarshalInto (registeredExtensions w) raw = Some ext ->
  unmarshalExtension unmarshalInto raw i w = Returned (ext, None) w.
Proof.
  intros H. unfold unmarshalExtension, registered, mbind, M_bind.
  now rewrite H.
Qed.

Lemma unmarshalExtension_failed raw i w err :
  tryRegistered unmarshalInto (registeredExtensions w) raw = None ->
  unmarshalMap raw = inl err ->
  unmarshalExtension unmarshalInto raw i w = Returned (ExtNil, Some (IndexError i err)) w.
Proof.
  intros H1 H2. unfold unmarshalExtension, registered, mbind, M_bind.
  now rewrite H1, H2.
Qed.

Lemma unmarshalExtension_fallback raw i w l fallback :
  tryRegistered unmarshalInto (registeredExtensions w) raw = None ->
  unmarshalMap raw = inr fallback ->
  logger w = Some l ->
  unmarshalExtension unmarshalInto raw i w =
    Returned (ExtMap fallback, None) (with_records w l [notice i fallback]).
Proof.
  intros H1 H2 H3.
  unfold unmarshalExtension, registered, mbind, M_bind.
  rewrite H1, H2. unfold Logger, EnsureLogger, slog_Error.
  now rewrite H3; cbn; rewrite H3.
Qed.

Lemma unmarshalExtension_no_logger raw i w fallback :
  tryRegistered unmarshalInto (registeredExtensions w) raw = None ->
  unmarshalMap raw = inr fallback ->
  logger w = None ->
  unmarshalExtension unmarshalInto raw i w = Panicked no_logger.
Proof.
  intros H1 H2 H3.
  unfold unmarshalExtension, registered, mbind, M_bind.
  rewrite H1, H2. unfold Logger, EnsureLogger.
  now rewrite H3.
Qed.

(** *** The loop over the array *)

Lemma appended_nil (r : Response Inst) : appended r [] = r.
Proof. destruct r. unfold appended. cbn. now rewrite app_nil_r. Qed.

Lemma appended_cons (r : Response Inst) ext exts :
  appended (AddExtension r ext) exts = appended r (ext :: exts).
Proof. unfold appended, AddExtension. cbn. now rewrite <- app_assoc. Qed.

Lemma with_records_nil w l : logger w = Some l -> with_records w l [] = w.
Proof.
  destruct w as [lg regs], l as [recs]. cbn. intros ->.
  unfold with_records. cbn. now rewrite app_nil_r.
Qed.

Lemma with_records_app w l recs recs' :
  with_records (with_records w l recs) {| records := records l ++ recs |} recs'
  = with_records w l (recs ++ recs').
Proof. unfold with_records. cbn. now rewrite app_assoc. Qed.

Lemma unmarshalExtensions_logged (raws : list JSON) :
  forall i r w l,
    logger w = Some l ->
    unmarshalExtensions unmarshalInto raws i r w =
      Returned
        (appended r (map (entry unmarshalInto (registeredExtensions w)) raws))
        (with_records w l
           (logged_from unmarshalInto (registeredExtensions w) raws i)).
Proof.
  induction raws as [|raw rest IH]; intros i r w l Hl.
  - cbn. now rewrite appended_nil, with_records_nil.
  - cbn [unmarshalExtensions map logged_from].
    unfold mbind, M_bind, entry, logged.
    destruct (tryRegistered unmarshalInto (registeredExtensions w) raw)
      as [ext|] eqn:Ht.
    + rewrite (unmarshalExtension_matched _ _ _ ext Ht). cbn.
      rewrite (IH _ _ _ l Hl). now rewrite appended_cons.
    + destruct (unmarshalMap raw) as [err|fallback] eqn:Hm.
      * rewrite (unmarshalExtension_failed _ _ _ err Ht Hm).
        unfold Logger, EnsureLogger, slog_Error. cbn. rewrite Hl. cbn.
        rewrite Hl.
        change {| logger := _; registeredExtensions := _ |}
          with (with_records w l [failure i (IndexError i err)]).
        rewrite (IH (S i) (AddExtension r ExtNil) (with_records w l [failure i (IndexError i err)])
                   {| records := records l ++ [failure i (IndexError i err)] |} eq_refl).
        cbn [registeredExtensions with_records].
        now rewrite with_records_app, appended_cons.
      * rewrite (unmarshalExtension_fallback _ _ _ l fallback Ht Hm Hl). cbn.
        rewrite (IH (S i) (AddExtension r (ExtMap fallback)) (with_records w l [notice i fallback])
                   {| records := records l ++ [notice i fallback] |} eq_refl).
        cbn [registeredExtensions with_records].
        now rewrite with_records_app, appended_cons.
Qed.

Lemma unmarshalExtensions_matched (raws : list JSON) :
  forall i r w,
    Forall (fun raw => is_Some (tryRegistered unmarshalInto (registeredExtensions w) raw)) raws ->
    unmarshalExtensions unmarshalInto raws i r w =
      Returned
        (appended r (map (entry unmarshalInto (registeredExtensions w)) raws)) w.
Proof.
  induction raws as [|raw rest IH]; intros i r w Hall.
  - cbn. now rewrite appended_nil.
  - inversion Hall as [|? ? [ext Ht] Hrest]; subst.
    cbn [unmarshalExtensions map]. unfold mbind, M_bind, entry.
    rewrite (unmarshalExtension_matched _ _ _ ext Ht), Ht. cbn.
    rewrite (IH _ _ _ Hrest). now rewrite appended_cons.
Qed.

Lemma unmarshalExtensions_unset (raws : list JSON) :
  forall i r w,
    logger w = None ->
    Exists (unmatched unmarshalInto (registeredExtensions w)) raws ->
    unmarshalExtensions unmarshalInto raws i r w = Panicked no_logger.
Proof.
  induction raws as [|raw rest IH]; intros i r w Hl Hex.
  - inversion Hex.
  - cbn [unmarshalExtensions]. unfold mbind, M_bind.
    destruct (tryRegistered unmarshalInto (registeredExtensions w) raw)
      as [ext|] eqn:Ht.
    + rewrite (unmarshalExtension_matched _ _ _ ext Ht). cbn.
      apply IH; [exact Hl|].
      inversion Hex as [? ? Hhd|? ? Htl]; subst; [|exact Htl].
      unfold unmatched in Hhd. congruence.
    + destruct (unmarshalMap raw) as [err|fallback] eqn:Hm.
      * rewrite (unmarshalExtension_failed _ _ _ err Ht Hm).
        unfold Logger, EnsureLogger. cbn. now rewrite Hl.
      * now rewrite (unmarshalExtension_no_logger _ _ _ fallback Ht Hm Hl).
Qed.

End Element.

(** ** The whole document *)

Section Decode.

Context {Inst : Type} (unmarshalInto : GoType -> JSON -> option Inst).

Lemma UnmarshalJSON_failed (r : Response Inst) data w err :
  unmarshalAlias data = inl err ->
  UnmarshalJSON unmarshalInto r data w = Returned (r, Some err) w.
Proof. intros H. unfold UnmarshalJSON. now rewrite H. Qed.

Lemma UnmarshalJSON_logged (r : Response Inst) data temp w l :
  unmarshalAlias data = inr temp ->
  logger w = Some l ->
  UnmarshalJSON unmarshalInto r data w =
    Returned
      (document temp
         (map (entry unmarshalInto (registeredExtensions w)) (alias.Extensions temp)),
       None)
      (with_records w l
         (logged_from unmarshalInto (registeredExtensions w) (alias.Extensions temp) 0)).
Proof.
  intros Ha Hl. unfold UnmarshalJSON. rewrite Ha.
  unfold mbind, M_bind. now rewrite (unmarshalExtensions_logged _ _ _ _ _ l Hl).
Qed.

Lemma UnmarshalJSON_matched (r : Response Inst) data temp w :
  unmarshalAlias data = inr temp ->
  Forall (fun raw => is_Some (tryRegistered unmarshalInto (registeredExtensions w) raw))
    (alias.Extensions temp) ->
  UnmarshalJSON unmarshalInto r data w =
    Returned
      (document temp
         (map (entry unmarshalInto (registeredExtensions w)) (alias.Extensions temp)),
       None) w.
Proof.
  intros Ha Hall. unfold UnmarshalJSON. rewrite Ha.
  unfold mbind, M_bind. now rewrite (unmarshalExtensions_matched _ _ _ _ _ Hall).
Qed.

Lemma UnmarshalJSON_unset (r : Response Inst) data temp w :
  unmarshalAlias data = inr temp ->
  logger w = None ->
  Exists (unmatched unmarshalInto (registeredExtensions w)) (alias.Extensions temp) ->
  UnmarshalJSON unmarshalInto r data w = Panicked no_logger.
Proof.
  intros Ha Hl Hex. unfold UnmarshalJSON. rewrite Ha.
  unfold mbind, M_bind. now rewrite (unmarshalExtensions_unset _ _ _ _ _ Hl Hex).
Qed.

Lemma entry_fails regs raw :
  fails unmarshalInto regs raw -> entry unmarshalInto regs raw = ExtNil.
Proof. intros [Hu [err He]]. unfold entry. now rewrite Hu, He. Qed.

Lemma entry_resolves regs raw :
  resolves unmarshalInto regs raw ->
  is_nil (entry unmarshalInto regs raw) = false.
Proof.
  intros [[ext He]|[fallback Hf]]; unfold entry.
  - rewrite He. eapply tryRegistered_not_nil, He.
  - destruct (tryRegistered unmarshalInto regs raw) eqn:He.
    + eapply tryRegistered_not_nil, He.
    + now rewrite Hf.
Qed.

Lemma survivors_all regs raws :
  Forall (resolves unmarshalInto regs) raws ->
  List.filter (fun ext => negb (is_nil ext)) (map (entry unmarshalInto regs) raws)
  = map (entry unmarshalInto regs) raws.
Proof.
  induction 1 as [|raw raws Hr _ IH]; [reflexivity|].
  cbn. now rewrite (entry_resolves _ _ Hr), IH.
Qed.

(** C1 (as amended). When one element of the extensions array fails (no
    registered type takes it and the generic mapping refuses it) and the
    others resolve, then, with a logger set, the decoded sequence has as
    many entries as the array had elements: the failed element leaves a
    nil entry at its own position, the others leave their resolved
    values at theirs, and dropping the nil entry gives the resolved
    values in their original order. Without a logger the decode panics. *)
Theorem failed_element_keeps_its_slot
    (r : Response Inst) data temp w (before : list JSON) bad after :
  unmarshalAlias data = inr temp ->
  alias.Extensions temp = before ++ bad :: after ->
  fails unmarshalInto (registeredExtensions w) bad ->
  Forall (resolves unmarshalInto (registeredExtensions w)) (before ++ after) ->
  match logger w with
  | None => UnmarshalJSON unmarshalInto r data w = Panicked no_logger
  | Some _ =>
      exists r' w',
        UnmarshalJSON unmarshalInto r data w = Returned (r', None) w'
        /\ length (Extensions r') = length (alias.Extensions temp)
        /\ Extensions r' =
             map (entry unmarshalInto (registeredExtensions w)) before
             ++ ExtNil :: map (entry unmarshalInto (registeredExtensions w)) after
        /\ List.filter (fun ext => negb (is_nil ext)) (Extensions r') =
             map (entry unmarshalInto (registeredExtensions w)) (before ++ after)
  end.
Proof.
  intros Ha Hraws Hbad Hothers.
  destruct (logger w) as [l|] eqn:Hl.
  - eexists _, _. split; [apply (UnmarshalJSON_logged _ _ _ _ l Ha Hl)|].
    cbn [Extensions document]. rewrite Hraws.
    apply Forall_app in Hothers as [Hb Hafter].
    rewrite List.map_app. cbn [map]. rewrite (entry_fails _ _ Hbad).
    repeat split.
    + now rewrite !length_app, !length_map; cbn; rewrite !length_map.
    + rewrite List.filter_app. cbn.
      rewrite !survivors_all by assumption. now rewrite List.map_app.
  - apply (UnmarshalJSON_unset _ _ _ _ Ha Hl).
    rewrite Hraws. apply Exists_app. right. left. apply Hbad.
Qed.


(** C3 (as amended). An element that is a valid JSON object, whose
    numbers all fit a float64 and which no registered type takes,
    resolves, with a logger set, to the generic mapping that holds under
    each name what the member of that name decodes to, and the logger
    receives exactly one record for it. *)
Theorem unmatched_object_falls_back
    (ms : list (string * JSON)) (i : nat) w l :
  jsontext_valid (JObject ms) = true ->
  numbers_fit (JObject ms) = true ->
  unmatched unmarshalInto (registeredExtensions w) (JObject ms) ->
  logger w = Some l ->
  exists m : gmap string GoAny,
    unmarshalExtension unmarshalInto (JObject ms) i w
    = Returned (ExtMap (Some m), None)
        (with_records w l [notice i (Some m)])
    /\ forall k, m !! k = member k ms ≫= any_of.
Proof.
  intros Hvalid Hfit Hun Hl.
  destruct (unmarshalMap_object ms Hvalid Hfit) as (m & Hm & Hk).
  exists m. split; [|exact Hk].
  now apply unmarshalExtension_fallback.
Qed.

(** C4. When a member of the document cannot be taken by the fixed field
    of its name (a status that is not an integer number, say), the decode
    of the whole document returns a structural error, whatever else the
    document holds, its extensions included; the receiver and the process
    state are as before. *)
Theorem fixed_field_violation_fails_document
    (r : Response Inst) (ms : list (string * JSON)) w :
  Exists (fun m => violates m = true) ms ->
  exists err,
    structural err
    /\ UnmarshalJSON unmarshalInto r (Text (JObject ms)) w
       = Returned (r, Some err) w.
Proof.
  intros Hex.
  assert (exists err, unmarshalAlias (Text (JObject ms)) = inl err) as [err He].
  { unfold unmarshalAlias.
    destruct (jsontext_valid (JObject ms)); cbn [negb]; [|eauto].
    apply decodeMembers_violates, Hex. }
  exists err. split; [eapply unmarshalAlias_structural, He|].
  now apply UnmarshalJSON_failed.
Qed.

(** C5. Without a logger, a decode with an element that no registered
    type takes panics in [EnsureLogger] instead of returning. With a
    logger, or when every element is taken by a registered type, the
    decode returns. *)
Theorem missing_logger_halts_decode (r : Response Inst) data temp w :
  unmarshalAlias data = inr temp ->
  (logger w = None ->
   Exists (unmatched unmarshalInto (registeredExtensions w)) (alias.Extensions temp) ->
   UnmarshalJSON unmarshalInto r data w = Panicked no_logger)
  /\ (is_Some (logger w)
      \/ Forall (fun raw => is_Some (tryRegistered unmarshalInto (registeredExtensions w) raw))
           (alias.Extensions temp) ->
      exists r' w', UnmarshalJSON unmarshalInto r data w = Returned (r', None) w').
Proof.
  intros Ha. split.
  - intros Hl Hex. now apply (UnmarshalJSON_unset _ _ _ _ Ha).
  - intros [[l Hl]|Hall].
    + eexists _, _. apply (UnmarshalJSON_logged _ _ _ _ l Ha Hl).
    + eexists _, _. apply (UnmarshalJSON_matched _ _ _ _ Ha Hall).
Qed.

Lemma logged_from_failure regs (raws : list JSON) :
  forall i j bad err,
    raws !! j = Some bad ->
    unmatched unmarshalInto regs bad ->
    unmarshalMap bad = inl err ->
    failure (i + j) (IndexError (i + j) err)
      ∈ logged_from unmarshalInto regs raws i.
Proof.
  induction raws as [|raw rest IH]; intros i j bad err Hj Hun Hm;
    [discriminate|].
  cbn [logged_from]. apply elem_of_app. destruct j as [|j]; cbn in Hj.
  - left. injection Hj as ->. unfold logged. rewrite Hun, Hm.
    replace (i + 0)%nat with i by lia. apply list_elem_of_here.
  - right. replace (i + S j)%nat with (S i + j)%nat by lia.
    now apply (IH (S i) j bad err).
Qed.

(** C6 (as amended). An element that no registered type takes and that the generic
    mapping refuses makes [unmarshalExtension] return the refusal wrapped
    with the index of the element, and nothing else. In the document the
    failure stays with that element: with a logger set the decode
    returns, the element leaves a nil entry, the wrapped error is handed
    to the logger, and every element has the entry it resolves to by
    itself. Without a logger the decode panics. *)
Theorem fallback_failure_is_per_element
    (r : Response Inst) data temp w (j : nat) bad err :
  unmarshalAlias data = inr temp ->
  alias.Extensions temp !! j = Some bad ->
  unmatched unmarshalInto (registeredExtensions w) bad ->
  unmarshalMap bad = inl err ->
  unmarshalExtension unmarshalInto bad j w
  = Returned (ExtNil, Some (IndexError j err)) w
  /\ match logger w with
     | None => UnmarshalJSON unmarshalInto r data w = Panicked no_logger
     | Some _ =>
         exists r' w' l',
           UnmarshalJSON unmarshalInto r data w = Returned (r', None) w'
           /\ Extensions r' !! j = Some ExtNil
           /\ (forall k raw,
                  alias.Extensions temp !! k = Some raw ->
                  Extensions r' !! k
                  = Some (entry unmarshalInto (registeredExtensions w) raw))
           /\ logger w' = Some l'
           /\ failure j (IndexError j err) ∈ records l'
     end.
Proof.
  intros Ha Hj Hun Hm. split; [now apply unmarshalExtension_failed|].
  destruct (logger w) as [l|] eqn:Hl.
  - eexists _, _, _. split; [apply (UnmarshalJSON_logged _ _ _ _ l Ha Hl)|].
    cbn [Extensions document]. repeat split.
    + rewrite list_lookup_fmap, Hj. cbn. unfold entry. now rewrite Hun, Hm.
    + intros k raw Hk. now rewrite list_lookup_fmap, Hk.
    + cbn. apply elem_of_app. right.
      apply (logged_from_failure _ _ 0%nat j bad err Hj Hun Hm).
  - apply (UnmarshalJSON_unset _ _ _ _ Ha Hl).
    apply Exists_exists. exists bad. split; [|exact Hun].
    eapply list_elem_of_lookup_2, Hj.
Qed.

Lemma matched_or_not regs (raws : list JSON) :
  Forall (fun raw => is_Some (tryRegistered unmarshalInto regs raw)) raws
  \/ Exists (unmatched unmarshalInto regs) raws.
Proof.
  induction raws as [|raw rest [IH|IH]].
  - left. constructor.
  - destruct (tryRegistered unmarshalInto regs raw) as [ext|] eqn:Ht.
    + left. constructor; [now exists ext | exact IH].
    + right. now left.
  - right. now right.
Qed.

(** C9 (as amended). When the fixed fields decode, [UnmarshalJSON] never
    returns an error, however many elements fail. With a logger set it
    returns nil: the decoded sequence is as long as the array, every
    failed element has a nil entry, and the logger has received what the
    elements caused, one record with the wrapped error for each failure.
    Without a logger it returns nil when a registered type takes every
    element, and panics as soon as there is an element none takes. *)
Theorem extension_errors_are_logged_not_returned
    (r : Response Inst) data temp w :
  unmarshalAlias data = inr temp ->
  (forall r' err w',
      UnmarshalJSON unmarshalInto r data w <> Returned (r', Some err) w')
  /\ (forall l,
        logger w = Some l ->
        exists r',
          UnmarshalJSON unmarshalInto r data w
          = Returned (r', None)
              (with_records w l
                 (logged_from unmarshalInto (registeredExtensions w)
                    (alias.Extensions temp) 0))
          /\ length (Extensions r') = length (alias.Extensions temp)
          /\ forall j raw err,
               alias.Extensions temp !! j = Some raw ->
               unmatched unmarshalInto (registeredExtensions w) raw ->
               unmarshalMap raw = inl err ->
               Extensions r' !! j = Some ExtNil
               /\ failure j (IndexError j err)
                    ∈ logged_from unmarshalInto (registeredExtensions w)
                        (alias.Extensions temp) 0)
  /\ (logger w = None ->
      (Forall (fun raw => is_Some (tryRegistered unmarshalInto
                                     (registeredExtensions w) raw))
         (alias.Extensions temp) ->
       exists r',
         UnmarshalJSON unmarshalInto r data w = Returned (r', None) w
         /\ length (Extensions r') = length (alias.Extensions temp))
      /\ (Exists (unmatched unmarshalInto (registeredExtensions w))
            (alias.Extensions temp) ->
          UnmarshalJSON unmarshalInto r data w = Panicked no_logger)).
Proof.
  intros Ha. split; [|split].
  - intros r' err w'. destruct (logger w) as [l|] eqn:Hl.
    + now rewrite (UnmarshalJSON_logged _ _ _ _ l Ha Hl).
    + destruct (matched_or_not (registeredExtensions w) (alias.Extensions temp))
        as [Hall|Hex].
      * now rewrite (UnmarshalJSON_matched _ _ _ _ Ha Hall).
      * now rewrite (UnmarshalJSON_unset _ _ _ _ Ha Hl Hex).
  - intros l Hl. eexists. split; [apply (UnmarshalJSON_logged _ _ _ _ l Ha Hl)|].
    cbn [Extensions document]. split; [apply length_map|].
    intros j raw err Hj Hun Hm. split.
    + rewrite list_lookup_fmap, Hj. cbn. unfold entry. now rewrite Hun, Hm.
    + apply (logged_from_failure _ _ 0%nat j raw err Hj Hun Hm).
  - intros Hl. split.
    + intros Hall. eexists.
      split; [apply (UnmarshalJSON_matched _ _ _ _ Ha Hall)|].
      cbn [Extensions document]. apply length_map.
    + intros Hex. apply (UnmarshalJSON_unset _ _ _ _ Ha Hl Hex).
Qed.

(** C10. When the fixed fields fail to decode, [UnmarshalJSON] returns
    that error and the receiver keeps every field it had; the process
    state is untouched as well. *)
Theorem failed_decode_leaves_receiver (r : Response Inst) data w err :
  unmarshalAlias data = inl err ->
  exists r',
    UnmarshalJSON unmarshalInto r data w = Returned (r', Some err) w
    /\ Type_ r' = Type_ r /\ Title r' = Title r /\ Status r' = Status r
    /\ Detail r' = Detail r /\ Instance r' = Instance r
    /\ Extensions r' = Extensions r.
Proof.
  intros He. exists r. split; [now apply UnmarshalJSON_failed|].
  repeat split.
Qed.

End Decode.

(** ** Encoding *)

Section Encode.

Context {Inst : Type}
  (unmarshalInto : GoType -> JSON -> option Inst)
  (marshalValue : GoType -> Inst -> option JSON)
  (marshalMap : GoMap -> option JSON).

(** C7. A document with empty detail, empty instance and no extensions
    encodes to an object with the members type, title, status and no
    other. Every encoding is an object whose names are type, title,
    status, detail, instance, extensions in that order, where detail and
    instance are left out exactly when empty and extensions exactly when
    there are none. *)
Theorem encode_names_follow_omitempty (r : Response Inst) :
  (Detail r = "" -> Instance r = "" -> Extensions r = [] ->
   marshalResponse marshalValue marshalMap r
   = Some (JObject [("type", JString (utf8.coerce (Type_ r)));
                    ("title", JString (utf8.coerce (Title r)));
                    ("status", JNumber (NInt (Status r)))]))
  /\ (forall v,
        marshalResponse marshalValue marshalMap r = Some v ->
        exists ms,
          v = JObject ms
          /\ names ms =
               ["type"; "title"; "status"]
               ++ (if decide (Detail r = "") then [] else ["detail"])
               ++ (if decide (Instance r = "") then [] else ["instance"])
               ++ (if decide (Extensions r = []) then [] else ["extensions"])).
Proof.
  split.
  - intros Hd Hi He. unfold marshalResponse, omitempty_string.
    now rewrite He, Hd, Hi.
  - intros v. unfold marshalResponse, omitempty_string.
    destruct (marshalExtensions marshalValue marshalMap (Extensions r))
      as [vs|]; [|discriminate].
    intros [= <-]. eexists. split; [reflexivity|].
    unfold names.
    destruct (String.eqb_spec (Detail r) ""), (decide (Detail r = ""));
      try contradiction;
      destruct (String.eqb_spec (Instance r) ""), (decide (Instance r = ""));
      try contradiction;
      destruct (Extensions r), (decide _); try congruence; reflexivity.
Qed.

(** C8 (as amended). For a document without extensions whose four string
    fields are valid UTF-8 (its status being a Go int), the encoding,
    decoded into any receiver in any process state, returns nil and a
    document with the same type, title, status, detail and instance. *)
Theorem roundtrip_of_fixed_fields (r : Response Inst) :
  Extensions r = [] ->
  utf8.ValidString (Type_ r) = true ->
  utf8.ValidString (Title r) = true ->
  utf8.ValidString (Detail r) = true ->
  utf8.ValidString (Instance r) = true ->
  int_range (Status r) ->
  exists v,
    marshalResponse marshalValue marshalMap r = Some v
    /\ forall r0 w,
         exists r',
           UnmarshalJSON unmarshalInto r0 (Text v) w = Returned (r', None) w
           /\ Type_ r' = Type_ r /\ Title r' = Title r
           /\ Status r' = Status r /\ Detail r' = Detail r
           /\ Instance r' = Instance r.
Proof.
  intros He Hty Hti Hde Hin Hst.
  assert (Hrange : int_rangeb (Status r) = true).
  { unfold int_rangeb, int_range in *.
    apply andb_true_intro. split; [apply Z.leb_le | apply Z.ltb_lt]; lia. }
  eexists. split.
  { unfold marshalResponse. rewrite He. cbn [marshalExtensions].
    rewrite !coerce_valid by assumption. reflexivity. }
  intros r0 w. unfold omitempty_string.
  rewrite !coerce_valid by assumption.
  destruct r as [ty ti st de ins exts];
    cbn [Type_ Title Status Detail Instance Extensions] in *.
  assert (Halias : forall ms,
            jsontext_valid (JObject ms) = true ->
            decodeMembers alias.zero ms = inr (alias.mk ty ti st de ins []) ->
            exists r',
              UnmarshalJSON unmarshalInto r0 (Text (JObject ms)) w
              = Returned (r', None) w
              /\ Type_ r' = ty /\ Title r' = ti /\ Status r' = st
              /\ Detail r' = de /\ Instance r' = ins).
  { intros ms Hvalid Hms. unfold UnmarshalJSON, unmarshalAlias.
    rewrite Hvalid. cbn [negb]. rewrite Hms. cbn.
    eexists. split; [reflexivity|]. cbn. repeat split. }
  destruct (String.eqb_spec de "") as [->|Hd],
           (String.eqb_spec ins "") as [->|Hi];
    apply Halias;
    cbn [app jsontext_valid map fst snd forallb decodeMembers];
    rewrite ?Hty, ?Hti, ?Hde, ?Hin, ?name_valid_type, ?name_valid_title,
      ?name_valid_status, ?name_valid_detail, ?name_valid_instance;
    try (match goal with
         | |- context [distinct ?l] =>
             replace (distinct l) with true by (vm_compute; reflexivity)
         end; reflexivity);
    cbn; rewrite Hrange; reflexivity.
Qed.

End Encode.

(** * The properties at work *)

Import Example.

(** C1, the claim as stated, fails: the array [three] has a number in the
    middle, and the decoded sequence still has three entries, the middle
    one nil. *)
Lemma failed_element_is_not_omitted :
  exists r' w',
    UnmarshalJSON unmarshalInto blank (problem three) quiet = Returned (r', None) w'
    /\ length (Extensions r') = 3%nat
    /\ ~ (length (Extensions r') < length three)%nat
    /\ Extensions r' !! 1%nat = Some ExtNil.
Proof.
  eexists _, _. split; [vm_compute; reflexivity|].
  cbn. repeat split. lia.
Qed.

Lemma failed_element_keeps_its_slot_witness :
  exists r' w',
    UnmarshalJSON unmarshalInto blank (problem three) quiet = Returned (r', None) w'
    /\ length (Extensions r') = 3%nat
    /\ Extensions r' = map (entry unmarshalInto []) [first] ++ ExtNil
                       :: map (entry unmarshalInto []) [third]
    /\ List.filter (fun ext => negb (is_nil ext)) (Extensions r')
       = map (entry unmarshalInto []) [first; third].
Proof.
  apply (failed_element_keeps_its_slot unmarshalInto blank (problem three)
           (fields three) quiet [first] (JNumber (NInt 42)) [third]).
  - reflexivity.
  - reflexivity.
  - split; [reflexivity|]. eexists. reflexivity.
  - constructor; [right; eexists; vm_compute; reflexivity|].
    constructor; [right; eexists; vm_compute; reflexivity|].
    constructor.
Defined.


(** C3, the claim as stated, fails: [huge] is a valid object that no
    registered type takes, and it resolves to nil with an error, because
    1e999 is no float64. *)
Lemma huge_number_defeats_fallback :
  jsontext_valid huge = true
  /\ unmatched unmarshalInto (registeredExtensions quiet) huge
  /\ unmarshalExtension unmarshalInto huge 0 quiet
     = Returned (ExtNil, Some (IndexError 0 (RangeError "float64"))) quiet
  /\ exists r',
       UnmarshalJSON unmarshalInto blank (problem [huge]) quiet
       = Returned (r', None)
           (with_records quiet {| records := [] |}
              [failure 0 (IndexError 0 (RangeError "float64"))])
       /\ Extensions r' = [ExtNil].
Proof.
  split; [reflexivity|]. split; [reflexivity|].
  split; [vm_compute; reflexivity|].
  eexists. split; [vm_compute; reflexivity|]. reflexivity.
Qed.

Lemma unmatched_object_falls_back_witness :
  exists m : gmap string GoAny,
    unmarshalExtension unmarshalInto third 2 quiet
    = Returned (ExtMap (Some m), None)
        (with_records quiet {| records := [] |} [notice 2 (Some m)])
    /\ forall k, m !! k = member k [("foo", JString "bar")] ≫= any_of.
Proof.
  apply (unmatched_object_falls_back unmarshalInto
           [("foo", JString "bar")] 2 quiet {| records := [] |}).
  - vm_compute. reflexivity.
  - reflexivity.
  - reflexivity.
  - reflexivity.
Defined.

Lemma fixed_field_violation_fails_document_witness :
  exists err,
    structural err
    /\ UnmarshalJSON unmarshalInto minimal (Text (JObject quoted_status)) unset
       = Returned (minimal, Some err) unset.
Proof.
  apply (fixed_field_violation_fails_document unmarshalInto minimal
           quoted_status unset).
  right. right. left. reflexivity.
Defined.

Lemma missing_logger_halts_decode_witness :
  UnmarshalJSON unmarshalInto blank (problem three) typed_unset
  = Panicked no_logger
  /\ (exists r' w',
        UnmarshalJSON unmarshalInto blank (problem three) typed
        = Returned (r', None) w')
  /\ (exists r' w',
        UnmarshalJSON unmarshalInto blank (problem [first; third]) typed_unset
        = Returned (r', None) w').
Proof.
  split; [|split].
  - apply (proj1 (missing_logger_halts_decode unmarshalInto blank
                    (problem three) (fields three) typed_unset eq_refl)).
    + reflexivity.
    + right. left. reflexivity.
  - apply (proj2 (missing_logger_halts_decode unmarshalInto blank
                    (problem three) (fields three) typed eq_refl)).
    left. eexists. reflexivity.
  - apply (proj2 (missing_logger_halts_decode unmarshalInto blank
                    (problem [first; third]) (fields [first; third])
                    typed_unset eq_refl)).
    right. constructor; [eexists; reflexivity|].
    constructor; [eexists; reflexivity|]. constructor.
Defined.

(** C6, the claim as stated, fails: in a process without a logger the
    second element of [three] fails as an element should, with the error
    that wraps its index, and a registered type takes each of its
    siblings; yet the decode of the document panics, so the failure is
    fatal to more than that element. *)
Lemma fallback_failure_halts_without_logger :
  unmarshalExtension unmarshalInto (JNumber (NInt 42)) 1 typed_unset
  = Returned (ExtNil, Some (IndexError 1 (TypeMismatch "map[string]any")))
      typed_unset
  /\ is_Some (tryRegistered unmarshalInto (registeredExtensions typed_unset) first)
  /\ is_Some (tryRegistered unmarshalInto (registeredExtensions typed_unset) third)
  /\ UnmarshalJSON unmarshalInto blank (problem three) typed_unset
     = Panicked no_logger
  /\ ~ (exists x w',
         UnmarshalJSON unmarshalInto blank (problem three) typed_unset
         = Returned x w').
Proof.
  split; [reflexivity|].
  split; [eexists; reflexivity|]. split; [eexists; reflexivity|].
  assert (H : UnmarshalJSON unmarshalInto blank (problem three) typed_unset
              = Panicked no_logger) by (vm_compute; reflexivity).
  split; [exact H|]. intros (x & w' & Hret). rewrite H in Hret. discriminate.
Qed.

Lemma fallback_failure_is_per_element_witness :
  unmarshalExtension unmarshalInto (JNumber (NInt 42)) 1 quiet
  = Returned (ExtNil, Some (IndexError 1 (TypeMismatch "map[string]any"))) quiet
  /\ exists r' w' l',
       UnmarshalJSON unmarshalInto blank (problem three) quiet
       = Returned (r', None) w'
       /\ Extensions r' !! 1%nat = Some ExtNil
       /\ (forall k raw,
              three !! k = Some raw ->
              Extensions r' !! k = Some (entry unmarshalInto [] raw))
       /\ logger w' = Some l'
       /\ failure 1 (IndexError 1 (TypeMismatch "map[string]any")) ∈ records l'.
Proof.
  apply (fallback_failure_is_per_element unmarshalInto blank (problem three)
           (fields three) quiet 1 (JNumber (NInt 42))
           (TypeMismatch "map[string]any")).
  - reflexivity.
  - reflexivity.
  - reflexivity.
  - reflexivity.
Defined.

Lemma encode_names_follow_omitempty_witness :
  marshalResponse marshalValue marshalMap minimal
  = Some (JObject [("type", JString (utf8.coerce "about:blank"));
                   ("title", JString (utf8.coerce "Conflict"));
                   ("status", JNumber (NInt 409))])
  /\ exists ms,
       JObject [("type", JString "about:blank"); ("title", JString "Conflict");
                ("status", JNumber (NInt 409));
                ("detail", JString "already exists");
                ("instance", JString "/items/7")] = JObject ms
       /\ names ms = ["type"; "title"; "status"; "detail"; "instance"].
Proof.
  split.
  - apply (proj1 (encode_names_follow_omitempty marshalValue marshalMap minimal));
      reflexivity.
  - apply (proj2 (encode_names_follow_omitempty marshalValue marshalMap detailed)).
    vm_compute. reflexivity.
Defined.

(** C8, the claim as stated, fails: the title of [garbled] is the byte
    0xFF; it is encoded as U+FFFD and decoded as those three bytes. *)
Lemma garbled_title_does_not_round_trip :
  exists v r',
    marshalResponse marshalValue marshalMap garbled = Some v
    /\ UnmarshalJSON unmarshalInto blank (Text v) quiet = Returned (r', None) quiet
    /\ Title r' = utf8.RuneError
    /\ Title r' <> Title garbled.
Proof.
  eexists _, _. split; [vm_compute; reflexivity|].
  split; [vm_compute; reflexivity|].
  split; [reflexivity|]. discriminate.
Qed.

Lemma roundtrip_of_fixed_fields_witness :
  exists v,
    marshalResponse marshalValue marshalMap detailed = Some v
    /\ forall r0 w,
         exists r',
           UnmarshalJSON unmarshalInto r0 (Text v) w = Returned (r', None) w
           /\ Type_ r' = "about:blank" /\ Title r' = "Conflict"
           /\ Status r' = 409 /\ Detail r' = "already exists"
           /\ Instance r' = "/items/7".
Proof.
  apply (roundtrip_of_fixed_fields unmarshalInto marshalValue marshalMap detailed).
  - reflexivity.
  - vm_compute. reflexivity.
  - vm_compute. reflexivity.
  - vm_compute. reflexivity.
  - vm_compute. reflexivity.
  - unfold int_range. cbn. lia.
Defined.

(** C9, the claim as stated, fails: the fixed fields of [problem three]
    decode, its second element fails, and in a process without a logger
    the decode does not return nil, it panics. *)
Lemma failed_element_without_logger_panics :
  unmarshalAlias (problem three) = inr (fields three)
  /\ unmatched unmarshalInto (registeredExtensions unset) (JNumber (NInt 42))
  /\ unmarshalMap (JNumber (NInt 42)) = inl (TypeMismatch "map[string]any")
  /\ UnmarshalJSON unmarshalInto blank (problem three) unset
     = Panicked no_logger
  /\ ~ (exists r' w',
         UnmarshalJSON unmarshalInto blank (problem three) unset
         = Returned (r', None) w').
Proof.
  split; [reflexivity|]. split; [reflexivity|]. split; [reflexivity|].
  assert (H : UnmarshalJSON unmarshalInto blank (problem three) unset
              = Panicked no_logger) by (vm_compute; reflexivity).
  split; [exact H|]. intros (r' & w' & Hret). rewrite H in Hret. discriminate.
Qed.

Lemma extension_errors_are_logged_not_returned_witness :
  (forall r' err w',
      UnmarshalJSON unmarshalInto blank (problem three) quiet
      <> Returned (r', Some err) w')
  /\ (exists r',
        UnmarshalJSON unmarshalInto blank (problem three) quiet
        = Returned (r', None)
            (with_records quiet {| records := [] |}
               (logged_from unmarshalInto [] three 0))
        /\ length (Extensions r') = 3%nat
        /\ Extensions r' !! 1%nat = Some ExtNil
        /\ failure 1 (IndexError 1 (TypeMismatch "map[string]any"))
             ∈ logged_from unmarshalInto [] three 0)
  /\ (exists r',
        UnmarshalJSON unmarshalInto blank (problem [first; third]) typed_unset
        = Returned (r', None) typed_unset
        /\ length (Extensions r') = 2%nat)
  /\ UnmarshalJSON unmarshalInto blank (problem three) typed_unset
     = Panicked no_logger.
Proof.
  destruct (extension_errors_are_logged_not_returned unmarshalInto blank
              (problem three) (fields three) quiet eq_refl)
    as (Hnever & Hlogged & _).
  split; [exact Hnever|]. split.
  - destruct (Hlogged {| records := [] |} eq_refl) as (r' & Hret & Hlen & Hfailed).
    exists r'. split; [exact Hret|]. split; [exact Hlen|].
    apply (Hfailed 1%nat (JNumber (NInt 42)) (TypeMismatch "map[string]any"));
      reflexivity.
  - split.
    + apply (proj1 (proj2 (proj2
               (extension_errors_are_logged_not_returned unmarshalInto blank
                  (problem [first; third]) (fields [first; third])
                  typed_unset eq_refl)) eq_refl)).
      constructor; [eexists; reflexivity|].
      constructor; [eexists; reflexivity|]. constructor.
    + apply (proj2 (proj2 (proj2
               (extension_errors_are_logged_not_returned unmarshalInto blank
                  (problem three) (fields three) typed_unset eq_refl)) eq_refl)).
      right. left. reflexivity.
Defined.

Lemma failed_decode_leaves_receiver_witness :
  exists r',
    UnmarshalJSON unmarshalInto detailed (Text (JObject quoted_status)) quiet
    = Returned (r', Some (TypeMismatch "int")) quiet
    /\ Type_ r' = "about:blank" /\ Title r' = "Conflict" /\ Status r' = 409
    /\ Detail r' = "already exists" /\ Instance r' = "/items/7"
    /\ Extensions r' = [].
Proof.
  apply (failed_decode_leaves_receiver unmarshalInto detailed
           (Text (JObject quoted_status)) quiet (TypeMismatch "int")).
  vm_compute. reflexivity.
Defined.

(** * Further properties of the code *)

(** ** The generic mapping, in full *)

Lemma unmarshalAny_fits_inv (v : JSON) :
  forall x, unmarshalAny v = inr x -> numbers_fit v = true.
Proof.
  induction v as [| b | n | s | vs IH | ms IH] using JSON_nested_ind;
    cbn [numbers_fit unmarshalAny]; intros x Hx; try reflexivity.
  - destruct (float64_fits n); [reflexivity|discriminate].
  - destruct (collect unmarshalAny vs) as [e|xs] eqn:Hc; [discriminate|].
    clear Hx x. revert xs Hc.
    induction IH as [|v vs Hv _ IHvs]; intros xs Hc; [reflexivity|].
    cbn in *. destruct (unmarshalAny v) as [e|y] eqn:Hy; [discriminate|].
    destruct (collect unmarshalAny vs) as [e|ys] eqn:Hys; [discriminate|].
    rewrite (Hv y eq_refl). cbn. now apply (IHvs ys).
  - match type of Hx with context [collect ?f ms] =>
      destruct (collect f ms) as [e|kvs] eqn:Hc; [discriminate|] end.
    clear Hx x. revert kvs Hc.
    induction IH as [|m ms Hm _ IHms]; intros kvs Hc; [reflexivity|].
    cbn in *. destruct (unmarshalAny (snd m)) as [e|y] eqn:Hy; [discriminate|].
    match type of Hc with context [collect ?f ms] =>
      destruct (collect f ms) as [e|ys] eqn:Hys; [discriminate|] end.
    rewrite (Hm y eq_refl). cbn. now apply (IHms ys).
Qed.

(** X1. The generic fallback takes exactly null and the objects whose
    numbers all fit a float64: null gives the nil map, such an object gives
    the map of its members, and every other valid value (a number, a
    string, a boolean, an array, an object with a number too large) is
    refused. *)
Theorem fallback_takes_null_and_fitting_objects (raw : JSON) (m : GoMap) :
  jsontext_valid raw = true ->
  unmarshalMap raw = inr m <->
  (raw = JNull /\ m = None)
  \/ (exists ms (g : gmap string GoAny),
        raw = JObject ms /\ numbers_fit raw = true /\ m = Some g
        /\ forall k, g !! k = member k ms ≫= any_of).
Proof.
  intros Hvalid. split.
  - unfold unmarshalMap. rewrite Hvalid. cbn [negb].
    destruct raw as [| b | n | s | vs | ms]; try discriminate.
    + intros [= <-]. now left.
    + destruct (unmarshalAny (JObject ms)) as [e|x] eqn:Hx; [discriminate|].
      pose proof (unmarshalAny_fits_inv _ _ Hx) as Hfit.
      destruct (unmarshalAny_object ms Hfit) as (g & Hg & Hk).
      rewrite Hg in Hx. injection Hx as <-. intros [= <-].
      right. exists ms, g. auto.
  - intros [[-> ->]|(ms & g & -> & Hfit & -> & Hk)]; [reflexivity|].
    destruct (unmarshalMap_object ms Hvalid Hfit) as (g' & Hg' & Hk').
    rewrite Hg'. do 2 f_equal. apply map_eq. intros k.
    now rewrite Hk, Hk'.
Qed.

Lemma fallback_takes_null_and_fitting_objects_witness :
  unmarshalMap (JArray [JNumber (NInt 1)]) = inr None <->
  (JArray [JNumber (NInt 1)] = JNull /\ (None : GoMap) = None)
  \/ (exists ms (g : gmap string GoAny),
        JArray [JNumber (NInt 1)] = JObject ms
        /\ numbers_fit (JArray [JNumber (NInt 1)]) = true /\ None = Some g
        /\ forall k, g !! k = member k ms ≫= any_of).
Proof.
  apply (fallback_takes_null_and_fitting_objects (JArray [JNumber (NInt 1)]) None).
  reflexivity.
Defined.

(** ** The registry *)

Section Registry.

Context {Inst : Type} (unmarshalInto : GoType -> JSON -> option Inst).

Lemma tryRegistered_more (regs more : list Prototype) (raw : JSON) ext :
  tryRegistered unmarshalInto regs raw = Some ext ->
  tryRegistered unmarshalInto (regs ++ more) raw = Some ext.
Proof.
  induction regs as [|q regs IH]; cbn; [discriminate|].
  destruct (unmarshalInto (valueTypeOf q) raw); [trivial|exact IH].
Qed.

(** X2. Registering a further prototype never changes how an element
    resolves that a registered type already takes: the new prototype goes
    to the end of the registry and is tried last. *)
Theorem registration_keeps_resolutions (p : Prototype) (raw : JSON) (i : nat) w ext :
  tryRegistered unmarshalInto (registeredExtensions w) raw = Some ext ->
  unmarshalExtension unmarshalInto raw i w = Returned (ext, None) w
  /\ exists w',
       RegisterExtension p w = Returned tt w'
       /\ registeredExtensions w' = registeredExtensions w ++ [p]
       /\ logger w' = logger w
       /\ unmarshalExtension unmarshalInto raw i w' = Returned (ext, None) w'.
Proof.
  intros Ht. split; [now apply unmarshalExtension_matched|].
  eexists. split; [reflexivity|]. cbn [registeredExtensions logger].
  repeat split. apply unmarshalExtension_matched. cbn.
  now apply tryRegistered_more.
Qed.

Lemma tryRegistered_value_types (regs regs' : list Prototype) (raw : JSON) :
  map valueTypeOf regs = map valueTypeOf regs' ->
  tryRegistered unmarshalInto regs raw = tryRegistered unmarshalInto regs' raw.
Proof.
  revert regs'. induction regs as [|q regs IH]; intros [|q' regs'] Hmap;
    try discriminate; [reflexivity|].
  cbn in *. injection Hmap as Hq Hrest. rewrite Hq.
  destruct (unmarshalInto (valueTypeOf q') raw); [reflexivity|now apply IH].
Qed.

Lemma tryRegistered_again (regs : list Prototype) (p : Prototype) (raw : JSON) :
  p ∈ regs ->
  tryRegistered unmarshalInto (regs ++ [p]) raw
  = tryRegistered unmarshalInto regs raw.
Proof.
  intros Hin.
  destruct (tryRegistered unmarshalInto regs raw) as [ext|] eqn:Ht.
  - now apply tryRegistered_more.
  - apply tryRegistered_None. apply tryRegistered_None in Ht.
    apply Forall_app. split; [exact Ht|]. constructor; [|constructor].
    rewrite Forall_forall in Ht. now apply Ht.
Qed.

(** The decode sees of the registry only which type takes which element. *)
Lemma unmarshalExtension_same w w' (raw : JSON) (i : nat) :
  logger w = logger w' ->
  tryRegistered unmarshalInto (registeredExtensions w) raw
  = tryRegistered unmarshalInto (registeredExtensions w') raw ->
  same_but_registry (unmarshalExtension unmarshalInto raw i w)
                    (unmarshalExtension unmarshalInto raw i w').
Proof.
  intros Hl Ht.
  destruct (tryRegistered unmarshalInto (registeredExtensions w') raw)
    as [ext|] eqn:Ht'.
  - rewrite (unmarshalExtension_matched _ _ _ _ _ Ht),
      (unmarshalExtension_matched _ _ _ _ _ Ht'). now split.
  - destruct (unmarshalMap raw) as [err|fallback] eqn:Hm.
    + rewrite (unmarshalExtension_failed _ _ _ _ _ Ht Hm),
        (unmarshalExtension_failed _ _ _ _ _ Ht' Hm). now split.
    + destruct (logger w') as [l|] eqn:Hl'.
      * rewrite (unmarshalExtension_fallback _ _ _ _ l _ Ht Hm Hl),
          (unmarshalExtension_fallback _ _ _ _ l _ Ht' Hm Hl'). now split.
      * rewrite (unmarshalExtension_no_logger _ _ _ _ _ Ht Hm Hl),
          (unmarshalExtension_no_logger _ _ _ _ _ Ht' Hm Hl'). reflexivity.
Qed.

Lemma unmarshalExtension_registry (raw : JSON) (i : nat) w x w1 :
  unmarshalExtension unmarshalInto raw i w = Returned x w1 ->
  registeredExtensions w1 = registeredExtensions w.
Proof.
  destruct (tryRegistered unmarshalInto (registeredExtensions w) raw)
    as [ext|] eqn:Ht.
  - rewrite (unmarshalExtension_matched _ _ _ _ _ Ht). now intros [= _ <-].
  - destruct (unmarshalMap raw) as [err|fallback] eqn:Hm.
    + rewrite (unmarshalExtension_failed _ _ _ _ _ Ht Hm). now intros [= _ <-].
    + destruct (logger w) as [l|] eqn:Hl.
      * rewrite (unmarshalExtension_fallback _ _ _ _ l _ Ht Hm Hl).
        now intros [= _ <-].
      * now rewrite (unmarshalExtension_no_logger _ _ _ _ _ Ht Hm Hl).
Qed.

Lemma unmarshalExtensions_same (raws : list JSON) :
  forall i (r : Response Inst) w w',
    logger w = logger w' ->
    (forall raw, tryRegistered unmarshalInto (registeredExtensions w) raw
                 = tryRegistered unmarshalInto (registeredExtensions w') raw) ->
    same_but_registry (unmarshalExtensions unmarshalInto raws i r w)
                      (unmarshalExtensions unmarshalInto raws i r w').
Proof.
  induction raws as [|raw rest IH]; intros i r w w' Hl Ht; [now split|].
  cbn [unmarshalExtensions]. unfold mbind, M_bind.
  pose proof (unmarshalExtension_same w w' raw i Hl (Ht raw)) as Hsame.
  destruct (unmarshalExtension unmarshalInto raw i w) as [[ext err] w1|msg] eqn:H1,
           (unmarshalExtension unmarshalInto raw i w') as [[ext' err'] w1'|msg'] eqn:H1';
    cbn in Hsame; try contradiction; [|exact Hsame].
  destruct Hsame as [[= <- <-] Hl1].
  assert (Hregs : registeredExtensions w1 = registeredExtensions w
                  /\ registeredExtensions w1' = registeredExtensions w').
  { split; eapply unmarshalExtension_registry; eassumption. }
  destruct Hregs as [Hr1 Hr1'].
  destruct err as [e|].
  - unfold Logger, EnsureLogger, slog_Error. cbn. rewrite <- Hl1.
    destruct (logger w1) as [l|] eqn:Hlog; cbn; [|reflexivity].
    rewrite Hlog, <- Hl1. cbn. apply IH; [reflexivity|].
    cbn [registeredExtensions]. intros raw'. rewrite Hr1, Hr1'. apply Ht.
  - cbn. apply IH; [exact Hl1|].
    intros raw'. rewrite Hr1, Hr1'. apply Ht.
Qed.

Lemma UnmarshalJSON_same (r : Response Inst) data w w' :
  logger w = logger w' ->
  (forall raw, tryRegistered unmarshalInto (registeredExtensions w) raw
               = tryRegistered unmarshalInto (registeredExtensions w') raw) ->
  same_but_registry (UnmarshalJSON unmarshalInto r data w)
                    (UnmarshalJSON unmarshalInto r data w').
Proof.
  intros Hl Ht. unfold UnmarshalJSON.
  destruct (unmarshalAlias data) as [err|temp]; [now split|].
  unfold mbind, M_bind.
  pose proof (unmarshalExtensions_same (alias.Extensions temp) 0
                {| Type_ := alias.Type_ temp; Title := alias.Title temp;
                   Status := alias.Status temp; Detail := alias.Detail temp;
                   Instance := alias.Instance temp; Extensions := [] |}
                w w' Hl Ht) as Hsame.
  destruct (unmarshalExtensions _ _ _ _ w) as [r1 w1|msg],
           (unmarshalExtensions _ _ _ _ w') as [r1' w1'|msg'];
    cbn in *; try contradiction; [|exact Hsame].
  destruct Hsame as [-> Hl1]. now split.
Qed.

(** X3. Registering a prototype that is registered already changes no
    decode: every document decodes to the same result, with the same
    records logged, or panics with the same message, as before. *)
Theorem registering_twice_is_harmless (p : Prototype) w :
  p ∈ registeredExtensions w ->
  exists w',
    RegisterExtension p w = Returned tt w'
    /\ forall (r : Response Inst) data,
         same_but_registry (UnmarshalJSON unmarshalInto r data w)
                           (UnmarshalJSON unmarshalInto r data w').
Proof.
  intros Hin. eexists. split; [reflexivity|]. intros r data.
  apply UnmarshalJSON_same; [reflexivity|].
  intros raw. cbn. symmetry. now apply tryRegistered_again.
Qed.

(** X4. A prototype counts by the type its instances are made of: two
    registries whose prototypes have, place by place, the same value type
    (a pointer to a type and the type itself, say) give the same decode of
    every document. *)
Theorem pointer_and_value_prototypes_agree (r : Response Inst) data w w' :
  logger w = logger w' ->
  map valueTypeOf (registeredExtensions w)
  = map valueTypeOf (registeredExtensions w') ->
  same_but_registry (UnmarshalJSON unmarshalInto r data w)
                    (UnmarshalJSON unmarshalInto r data w').
Proof.
  intros Hl Hmap. apply UnmarshalJSON_same; [exact Hl|].
  intros raw. now apply tryRegistered_value_types.
Qed.

End Registry.

(** ** What a decode does to the process *)

Section Effects.

Context {Inst : Type} (unmarshalInto : GoType -> JSON -> option Inst).

Lemma UnmarshalJSON_result (r : Response Inst) data temp w x w' :
  unmarshalAlias data = inr temp ->
  UnmarshalJSON unmarshalInto r data w = Returned x w' ->
  x = (document temp
         (map (entry unmarshalInto (registeredExtensions w)) (alias.Extensions temp)),
       None)
  /\ match logger w with
     | Some l =>
         w' = with_records w l
                (logged_from unmarshalInto (registeredExtensions w)
                   (alias.Extensions temp) 0)
     | None => w' = w
     end.
Proof.
  intros Ha. destruct (logger w) as [l|] eqn:Hl.
  - rewrite (UnmarshalJSON_logged _ _ _ _ _ l Ha Hl). now intros [= <- <-].
  - destruct (matched_or_not unmarshalInto (registeredExtensions w)
                (alias.Extensions temp)) as [Hall|Hex].
    + rewrite (UnmarshalJSON_matched _ _ _ _ _ Ha Hall). now intros [= <- <-].
    + now rewrite (UnmarshalJSON_unset _ _ _ _ _ Ha Hl Hex).
Qed.

(** X5. A decode that returns has left the registry as it was, has
    neither set nor removed the logger, and has at most handed the logger
    further records: what was logged before is still there, in front. *)
Theorem decode_only_appends_records (r : Response Inst) data w x w' :
  UnmarshalJSON unmarshalInto r data w = Returned x w' ->
  registeredExtensions w' = registeredExtensions w
  /\ (logger w' = None <-> logger w = None)
  /\ exists recs, records_of w' = records_of w ++ recs.
Proof.
  destruct (unmarshalAlias data) as [err|temp] eqn:Ha.
  - rewrite (UnmarshalJSON_failed _ _ _ _ _ Ha). intros [= _ <-].
    repeat split; trivial. exists []. now rewrite app_nil_r.
  - intros Hret. destruct (UnmarshalJSON_result _ _ _ _ _ _ Ha Hret) as [_ Hw].
    unfold records_of. destruct (logger w) as [l|] eqn:Hl; subst w'.
    + cbn. repeat split; try discriminate. eauto.
    + rewrite Hl. repeat split; trivial. exists []. now rewrite app_nil_r.
Qed.

Lemma logged_from_length regs (raws : list JSON) :
  forall i,
    length (logged_from unmarshalInto regs raws i)
    = length (List.filter (unmatchedb unmarshalInto regs) raws).
Proof.
  induction raws as [|raw rest IH]; intros i; [reflexivity|].
  cbn [logged_from List.filter]. rewrite length_app, IH.
  unfold logged, unmatchedb.
  destruct (tryRegistered unmarshalInto regs raw); [reflexivity|].
  destruct (unmarshalMap raw); reflexivity.
Qed.

(** X6. With a logger set, a decode whose fixed fields are taken hands
    the logger exactly one record for each element that no registered type
    takes, whether the generic mapping takes the element or not, and none
    for the others. *)
Theorem one_record_per_unmatched_element (r : Response Inst) data temp w l :
  unmarshalAlias data = inr temp ->
  logger w = Some l ->
  exists r' w' l',
    UnmarshalJSON unmarshalInto r data w = Returned (r', None) w'
    /\ logger w' = Some l'
    /\ length (records l')
       = (length (records l)
          + length (List.filter (unmatchedb unmarshalInto (registeredExtensions w))
                      (alias.Extensions temp)))%nat.
Proof.
  intros Ha Hl. eexists _, _, _.
  split; [apply (UnmarshalJSON_logged _ _ _ _ _ l Ha Hl)|].
  split; [reflexivity|]. cbn. now rewrite length_app, logged_from_length.
Qed.

(** X24. [unmarshalExtension] returns a value or an error, never both and
    never neither: the extension is nil exactly when the error is not, the
    error is always the refusal of the generic mapping wrapped with the
    index that was passed in, and a returned value is an instance of a
    registered type or the generic mapping. *)
Theorem unmarshalExtension_value_or_error (raw : JSON) (i : nat) w ext err w' :
  unmarshalExtension unmarshalInto raw i w = Returned (ext, err) w' ->
  (is_nil ext = true <-> err <> None)
  /\ (forall e, err = Some e ->
        exists cause, unmarshalMap raw = inl cause /\ e = IndexError i cause)
  /\ (err = None ->
      tryRegistered unmarshalInto (registeredExtensions w) raw = Some ext
      \/ exists fallback, unmarshalMap raw = inr fallback /\ ext = ExtMap fallback).
Proof.
  destruct (tryRegistered unmarshalInto (registeredExtensions w) raw)
    as [ext0|] eqn:Ht.
  - rewrite (unmarshalExtension_matched _ _ _ _ _ Ht). intros [= <- <- <-].
    rewrite (tryRegistered_not_nil _ _ _ _ Ht).
    split; [split; [discriminate|now intros []]|].
    split; [discriminate|]. intros _. now left.
  - destruct (unmarshalMap raw) as [cause|fallback] eqn:Hm.
    + rewrite (unmarshalExtension_failed _ _ _ _ _ Ht Hm). intros [= <- <- <-].
      split; [split; [discriminate|reflexivity]|].
      split; [|discriminate]. intros e [= <-]. eauto.
    + destruct (logger w) as [l|] eqn:Hl.
      * rewrite (unmarshalExtension_fallback _ _ _ _ l _ Ht Hm Hl).
        intros [= <- <- <-].
        split; [split; [discriminate|now intros []]|].
        split; [discriminate|]. intros _. right. eauto.
      * now rewrite (unmarshalExtension_no_logger _ _ _ _ _ Ht Hm Hl).
Qed.

End Effects.

(** ** The fixed fields, in full *)

Lemma member_absent (k : string) (ms : list (string * JSON)) :
  existsb (String.eqb k) (map fst ms) = false -> member k ms = None.
Proof.
  induction ms as [|[k' v] ms IH]; cbn; [reflexivity|].
  destruct (String.eqb k k'); cbn; [discriminate|exact IH].
Qed.

Ltac name_cases k :=
  destruct (String.eqb_spec k "type") as [->|?];
  [|destruct (String.eqb_spec k "title") as [->|?];
    [|destruct (String.eqb_spec k "status") as [->|?];
      [|destruct (String.eqb_spec k "detail") as [->|?];
        [|destruct (String.eqb_spec k "instance") as [->|?];
          [|destruct (String.eqb_spec k "extensions") as [->|?]]]]]].

Lemma decodeMember_step (t : responseAlias) (k : string) (v : JSON)
    (ms : list (string * JSON)) :
  violates (k, v) = false ->
  member k ms = None ->
  exists t1,
    decodeMember t (k, v) = inr t1
    /\ alias_from t1 ms = alias_from t ((k, v) :: ms).
Proof.
  intros Hv Hk. destruct t as [ty ti st de ins ex].
  unfold alias_from. cbn [member].
  rewrite (String.eqb_sym "type" k), (String.eqb_sym "title" k),
    (String.eqb_sym "status" k), (String.eqb_sym "detail" k),
    (String.eqb_sym "instance" k), (String.eqb_sym "extensions" k).
  unfold violates in Hv. unfold decodeMember.
  name_cases k; cbn in Hv |- *; rewrite ?Hk.
  all: destruct v as [| |[z|mant e]| | |]; try discriminate;
    cbn in Hv |- *;
    try (destruct (int_rangeb z); [|discriminate]);
    eexists; split; reflexivity.
Qed.

Lemma decodeMembers_lookup (ms : list (string * JSON)) :
  forall t,
    distinct (map fst ms) = true ->
    Forall (fun m => violates m = false) ms ->
    decodeMembers t ms = inr (alias_from t ms).
Proof.
  induction ms as [|[k v] ms IH]; intros t Hd Hok.
  - destruct t. reflexivity.
  - cbn in Hd. apply andb_prop in Hd as [Hk Hd].
    apply negb_true_iff in Hk. apply member_absent in Hk.
    inversion Hok as [|? ? Hv Hrest]; subst.
    destruct (decodeMember_step t k v ms Hv Hk) as (t1 & H1 & Hfrom).
    cbn [decodeMembers]. rewrite H1, (IH t1 Hd Hrest). now rewrite Hfrom.
Qed.

Lemma decodeMember_ok (t : responseAlias) (m : string * JSON) t1 :
  decodeMember t m = inr t1 -> violates m = false.
Proof.
  destruct (violates m) eqn:Hv; [|reflexivity].
  destruct (decodeMember_violates t m Hv) as [e He]. congruence.
Qed.

Lemma decodeMembers_ok (ms : list (string * JSON)) :
  forall t temp,
    decodeMembers t ms = inr temp -> Forall (fun m => violates m = false) ms.
Proof.
  induction ms as [|m ms IH]; intros t temp; cbn [decodeMembers];
    [constructor|].
  destruct (decodeMember t m) as [e|t1] eqn:Hm; [discriminate|].
  intros Hrest. constructor; [eapply decodeMember_ok, Hm | eapply IH, Hrest].
Qed.

Lemma unmarshalAlias_by_name (ms : list (string * JSON)) (temp : responseAlias) :
  unmarshalAlias (Text (JObject ms)) = inr temp <->
  jsontext_valid (JObject ms) = true
  /\ Forall (fun m => violates m = false) ms
  /\ temp = alias_of ms.
Proof.
  unfold unmarshalAlias. split.
  - destruct (jsontext_valid (JObject ms)) eqn:Hvalid; cbn [negb];
      [|discriminate].
    intros Hdec. pose proof (decodeMembers_ok _ _ _ Hdec) as Hok.
    cbn in Hvalid. apply andb_prop in Hvalid as [Hd _].
    rewrite (decodeMembers_lookup ms alias.zero Hd Hok) in Hdec.
    injection Hdec as <-. auto.
  - intros (Hvalid & Hok & ->). rewrite Hvalid. cbn [negb].
    cbn in Hvalid. apply andb_prop in Hvalid as [Hd _].
    now apply decodeMembers_lookup.
Qed.

(** X7. The fixed fields of an object decode exactly when the object is
    valid (UTF-8 throughout, no name twice) and no member is one its field
    cannot take; and then each field holds what the member of its name
    says, or its zero value when that member is null or absent. Members
    of other names play no part. *)
Theorem fixed_fields_by_name (ms : list (string * JSON)) (temp : responseAlias) :
  unmarshalAlias (Text (JObject ms)) = inr temp <->
  jsontext_valid (JObject ms) = true
  /\ Forall (fun m => violates m = false) ms
  /\ temp = alias_of ms.
Proof. apply unmarshalAlias_by_name. Qed.

Section Receiver.

Context {Inst : Type} (unmarshalInto : GoType -> JSON -> option Inst).

(** X8. A decode that returns nil has replaced the receiver: nothing of
    what the receiver held before is left, fields without a member hold
    their zero value, and the extensions are the entries of the elements
    of the extensions member, or none. Decoding null gives the zero
    document. *)
Theorem decode_replaces_receiver (r : Response Inst) (ms : list (string * JSON)) w :
  (forall r' w',
      UnmarshalJSON unmarshalInto r (Text (JObject ms)) w = Returned (r', None) w' ->
      r' = document (alias_of ms)
             (map (entry unmarshalInto (registeredExtensions w))
                (values_or [] (member "extensions" ms))))
  /\ UnmarshalJSON unmarshalInto r (Text JNull) w
     = Returned (document alias.zero [], None) w.
Proof.
  split; [|reflexivity].
  intros r' w' Hret.
  destruct (unmarshalAlias (Text (JObject ms))) as [err|temp] eqn:Ha.
  - rewrite (UnmarshalJSON_failed _ _ _ _ _ Ha) in Hret. discriminate.
  - destruct (UnmarshalJSON_result _ _ _ _ _ _ _ Ha Hret) as [[= ->] _].
    apply unmarshalAlias_by_name in Ha as (_ & _ & ->). reflexivity.
Qed.

Lemma decodeMembers_unknown (ms1 ms2 : list (string * JSON)) k v :
  fixed_name k = false ->
  forall t, decodeMembers t (ms1 ++ (k, v) :: ms2) = decodeMembers t (ms1 ++ ms2).
Proof.
  intros Hk. induction ms1 as [|m ms1 IH]; intros t.
  - cbn [app decodeMembers]. destruct t. unfold decodeMember.
    unfold fixed_name in Hk.
    repeat (apply orb_false_elim in Hk as [Hk ?]).
    repeat match goal with H : String.eqb _ _ = false |- _ => rewrite H; clear H end.
    reflexivity.
  - cbn [app decodeMembers]. destruct (decodeMember t m); [reflexivity|apply IH].
Qed.

Lemma distinct_remove (ks1 ks2 : list string) k :
  distinct (ks1 ++ k :: ks2) = true -> distinct (ks1 ++ ks2) = true.
Proof.
  induction ks1 as [|k1 ks1 IH]; cbn.
  - intros H. now apply andb_prop in H as [_ H].
  - intros H. apply andb_prop in H as [Hk1 H].
    rewrite (IH H), andb_true_r.
    apply negb_true_iff in Hk1. apply negb_true_iff.
    rewrite existsb_app in Hk1 |- *. cbn in Hk1.
    apply orb_false_elim in Hk1 as [H1 H2].
    apply orb_false_elim in H2 as [_ H2]. now rewrite H1, H2.
Qed.

Lemma jsontext_valid_remove (ms1 ms2 : list (string * JSON)) m :
  jsontext_valid (JObject (ms1 ++ m :: ms2)) = true ->
  jsontext_valid (JObject (ms1 ++ ms2)) = true.
Proof.
  cbn [jsontext_valid]. intros H. apply andb_prop in H as [Hd Hall].
  rewrite List.map_app in Hd. cbn [map] in Hd.
  rewrite List.map_app, (distinct_remove _ _ _ Hd). cbn [andb].
  rewrite forallb_app in Hall |- *. cbn [forallb] in Hall.
  apply andb_prop in Hall as [H1 H2]. apply andb_prop in H2 as [_ H2].
  now rewrite H1, H2.
Qed.

(** X9. A member whose name is not one of the six of the struct tags is
    skipped: in a valid document, taking it away changes nothing of the
    decode, neither the result nor the error nor what is logged. *)
Theorem unknown_members_are_skipped
    (r : Response Inst) (ms1 ms2 : list (string * JSON)) k v w :
  jsontext_valid (JObject (ms1 ++ (k, v) :: ms2)) = true ->
  fixed_name k = false ->
  UnmarshalJSON unmarshalInto r (Text (JObject (ms1 ++ (k, v) :: ms2))) w
  = UnmarshalJSON unmarshalInto r (Text (JObject (ms1 ++ ms2))) w.
Proof.
  intros Hvalid Hk. unfold UnmarshalJSON, unmarshalAlias.
  rewrite Hvalid, (jsontext_valid_remove _ _ _ Hvalid). cbn [negb].
  now rewrite decodeMembers_unknown.
Qed.

End Receiver.

(** ** The order of the members *)

Lemma existsb_eqb_elem (k : string) (ks : list string) :
  existsb (String.eqb k) ks = true <-> k ∈ ks.
Proof.
  induction ks as [|k' ks IH]; cbn.
  - split; [discriminate|]. intros H. inversion H.
  - rewrite orb_true_iff, IH, elem_of_cons.
    destruct (String.eqb_spec k k'); split; intros [?|?]; auto; discriminate.
Qed.

Lemma distinct_NoDup (ks : list string) : distinct ks = true <-> NoDup ks.
Proof.
  induction ks as [|k ks IH]; cbn.
  - split; [constructor|reflexivity].
  - rewrite andb_true_iff, negb_true_iff, IH, NoDup_cons.
    rewrite <- existsb_eqb_elem.
    destruct (existsb (String.eqb k) ks); split; intros [? ?]; split;
      auto; try discriminate; congruence.
Qed.

Lemma member_elem (ms : list (string * JSON)) k v :
  NoDup (map fst ms) -> member k ms = Some v <-> (k, v) ∈ ms.
Proof.
  induction ms as [|[k' v'] ms IH]; cbn [member map fst]; intros Hnd.
  - split; [discriminate|]. intros H. inversion H.
  - apply NoDup_cons in Hnd as [Hk' Hnd]. rewrite elem_of_cons.
    destruct (String.eqb_spec k k') as [->|Hne].
    + split.
      * intros [= ->]. now left.
      * intros [[= ->]|Hin]; [reflexivity|].
        exfalso. apply Hk'. apply list_elem_of_fmap. now exists (k', v).
    + rewrite (IH Hnd). split; [now right|].
      intros [[= -> _]|Hin]; [contradiction|exact Hin].
Qed.

Lemma member_Permutation (ms ms' : list (string * JSON)) k :
  NoDup (map fst ms) -> ms ≡ₚ ms' -> member k ms = member k ms'.
Proof.
  intros Hnd Hperm.
  assert (Hnd' : NoDup (map fst ms')) by now rewrite <- Hperm.
  destruct (member k ms) as [v|] eqn:Hm.
  - symmetry. apply (member_elem _ _ _ Hnd'). rewrite <- Hperm.
    now apply (member_elem _ _ _ Hnd).
  - destruct (member k ms') as [v'|] eqn:Hm'; [|reflexivity].
    apply (member_elem _ _ _ Hnd') in Hm'. rewrite <- Hperm in Hm'.
    apply (member_elem _ _ _ Hnd) in Hm'. congruence.
Qed.

Lemma jsontext_valid_Permutation (ms ms' : list (string * JSON)) :
  ms ≡ₚ ms' ->
  jsontext_valid (JObject ms) = true -> jsontext_valid (JObject ms') = true.
Proof.
  intros Hperm. cbn [jsontext_valid]. rewrite !andb_true_iff.
  rewrite !distinct_NoDup, !List.forallb_forall. intros [Hnd Hall]. split.
  - now rewrite <- Hperm.
  - intros m Hin. apply Hall. apply list_elem_of_In.
    rewrite Hperm. now apply list_elem_of_In.
Qed.

Section Order.

Context {Inst : Type} (unmarshalInto : GoType -> JSON -> option Inst).

(** X10. When the fixed fields of an object decode, the order in which its
    members are written does not matter: every rearrangement of the
    members decodes to the same document, with the same effect on the
    process. *)
Theorem member_order_is_irrelevant
    (r : Response Inst) (ms ms' : list (string * JSON)) temp w :
  ms ≡ₚ ms' ->
  unmarshalAlias (Text (JObject ms)) = inr temp ->
  unmarshalAlias (Text (JObject ms')) = inr temp
  /\ UnmarshalJSON unmarshalInto r (Text (JObject ms')) w
     = UnmarshalJSON unmarshalInto r (Text (JObject ms)) w.
Proof.
  intros Hperm Ha.
  assert (Ha' : unmarshalAlias (Text (JObject ms')) = inr temp).
  { apply unmarshalAlias_by_name in Ha as (Hvalid & Hok & ->).
    apply unmarshalAlias_by_name. split; [|split].
    - now apply (jsontext_valid_Permutation ms).
    - now rewrite <- Hperm.
    - assert (Hnd : NoDup (map fst ms)).
      { cbn in Hvalid. apply andb_prop in Hvalid as [Hd _].
        now apply distinct_NoDup. }
      unfold alias_of, alias_from.
      now rewrite !(member_Permutation ms ms' _ Hnd Hperm). }
  split; [exact Ha'|]. unfold UnmarshalJSON. now rewrite Ha, Ha'.
Qed.

End Order.

(** ** What the encoder writes for a string *)

Lemma runeWidth_copied (c : ascii) (t : string) (k : nat) :
  utf8.runeWidth (String c t) = S k ->
  utf8.runeWidth (String c (utf8.coerce_from k t)) = S k.
Proof.
  unfold utf8.runeWidth at 1.
  destruct (utf8.between 0 127 c) eqn:E0.
  { intros [= <-]. unfold utf8.runeWidth. now rewrite E0. }
  destruct t as [|b1 t1]; [discriminate|].
  destruct (utf8.between 194 223 c && utf8.cont b1) eqn:E1.
  { intros [= <-]. cbn [utf8.coerce_from]. unfold utf8.runeWidth.
    now rewrite E0, E1. }
  destruct t1 as [|b2 t2]; [discriminate|].
  destruct (utf8.second_of_3 c b1 && utf8.cont b2) eqn:E2.
  { intros [= <-]. cbn [utf8.coerce_from]. unfold utf8.runeWidth.
    now rewrite E0, E1, E2. }
  destruct t2 as [|b3 t3]; [discriminate|].
  destruct (utf8.second_of_4 c b1 && utf8.cont b2 && utf8.cont b3) eqn:E3;
    [|discriminate].
  intros [= <-]. cbn [utf8.coerce_from]. unfold utf8.runeWidth.
  now rewrite E0, E1, E2, E3.
Qed.

Lemma valid_from_RuneError (x : string) :
  utf8.valid_from 0 (utf8.RuneError ++ x)%string = utf8.valid_from 0 x.
Proof. reflexivity. Qed.

Lemma coerce_from_is_valid (s : string) :
  forall skip, utf8.valid_from skip (utf8.coerce_from skip s) = true.
Proof.
  induction s as [|c t IH]; intros skip; [reflexivity|].
  destruct skip as [|k]; cbn [utf8.coerce_from].
  - destruct (utf8.runeWidth (String c t)) as [|k] eqn:Hw.
    + rewrite valid_from_RuneError. apply IH.
    + cbn [utf8.valid_from]. rewrite (runeWidth_copied _ _ _ Hw). apply IH.
  - cbn [utf8.valid_from]. apply IH.
Qed.

Lemma coerce_is_valid (s : string) :
  utf8.ValidString (utf8.coerce s) = true.
Proof. apply coerce_from_is_valid. Qed.

(** X11. What [json.Marshal] writes for a Go string is always valid UTF-8,
    and strings that are valid already are written as they are; so
    writing twice is the same as writing once. *)
Theorem coerced_strings_are_valid (s : string) :
  utf8.ValidString (utf8.coerce s) = true
  /\ utf8.coerce (utf8.coerce s) = utf8.coerce s
  /\ (utf8.ValidString s = true <-> utf8.coerce s = s).
Proof.
  pose proof (coerce_is_valid s) as Hvalid.
  split; [exact Hvalid|]. split; [now apply coerce_valid|].
  split; [apply coerce_valid|]. intros <-. exact Hvalid.
Qed.

Section Reencode.

Context {Inst : Type}
  (unmarshalInto : GoType -> JSON -> option Inst)
  (marshalValue : GoType -> Inst -> option JSON)
  (marshalMap : GoMap -> option JSON).

Lemma int_rangeb_range (z : Z) : int_rangeb z = true <-> int_range z.
Proof.
  unfold int_rangeb, int_range.
  rewrite andb_true_iff, Z.leb_le, Z.ltb_lt. reflexivity.
Qed.

Lemma marshal_then_decode (r r0 : Response Inst) w :
  Extensions r = [] ->
  int_range (Status r) ->
  exists v,
    marshalResponse marshalValue marshalMap r = Some v
    /\ UnmarshalJSON unmarshalInto r0 (Text v) w = Returned (coerced r, None) w.
Proof.
  intros He Hst. apply int_rangeb_range in Hst.
  eexists. split.
  { unfold marshalResponse. rewrite He. cbn [marshalExtensions]. reflexivity. }
  unfold omitempty_string, coerced.
  destruct r as [ty ti st de ins exts];
    cbn [Type_ Title Status Detail Instance Extensions] in *. subst exts.
  assert (Halias : forall ms,
            jsontext_valid (JObject ms) = true ->
            decodeMembers alias.zero ms
            = inr (alias.mk (utf8.coerce ty) (utf8.coerce ti) st
                     (utf8.coerce de) (utf8.coerce ins) []) ->
            UnmarshalJSON unmarshalInto r0 (Text (JObject ms)) w
            = Returned
                ({| Type_ := utf8.coerce ty; Title := utf8.coerce ti;
                    Status := st; Detail := utf8.coerce de;
                    Instance := utf8.coerce ins; Extensions := [] |}, None) w).
  { intros ms Hvalid Hms. unfold UnmarshalJSON, unmarshalAlias.
    rewrite Hvalid. cbn [negb]. rewrite Hms. reflexivity. }
  pose proof (coerce_is_valid ty) as Hty.
  pose proof (coerce_is_valid ti) as Hti.
  pose proof (coerce_is_valid de) as Hde.
  pose proof (coerce_is_valid ins) as Hin.
  destruct (String.eqb_spec de "") as [->|Hd],
           (String.eqb_spec ins "") as [->|Hi];
    apply Halias;
    cbn [app jsontext_valid map fst snd forallb decodeMembers];
    rewrite ?Hty, ?Hti, ?Hde, ?Hin, ?name_valid_type, ?name_valid_title,
      ?name_valid_status, ?name_valid_detail, ?name_valid_instance;
    try (match goal with
         | |- context [distinct ?l] =>
             replace (distinct l) with true by (vm_compute; reflexivity)
         end; reflexivity);
    cbn; rewrite Hst; reflexivity.
Qed.

(** X12. The encoding of any document without extensions (its status
    being a Go int) decodes without error, into any receiver and in any
    process state, to the document whose strings are the original ones
    made valid UTF-8 and whose status is the original one. *)
Theorem encoding_always_decodes (r : Response Inst) :
  Extensions r = [] ->
  int_range (Status r) ->
  exists v,
    marshalResponse marshalValue marshalMap r = Some v
    /\ forall r0 w,
         UnmarshalJSON unmarshalInto r0 (Text v) w = Returned (coerced r, None) w.
Proof.
  intros He Hst.
  destruct (marshal_then_decode r r (Build_World None []) He Hst) as (v & Hv & _).
  exists v. split; [exact Hv|]. intros r0 w.
  destruct (marshal_then_decode r r0 w He Hst) as (v' & Hv' & Hdec).
  rewrite Hv in Hv'. now injection Hv' as <-.
Qed.

Lemma member_In (ms : list (string * JSON)) k v :
  member k ms = Some v -> In (k, v) ms.
Proof.
  induction ms as [|[k' v'] ms IH]; cbn [member]; [discriminate|].
  destruct (String.eqb_spec k k') as [->|_].
  - intros [= ->]. now left.
  - intros H. right. now apply IH.
Qed.

Lemma string_or_valid (ms : list (string * JSON)) k :
  jsontext_valid (JObject ms) = true ->
  utf8.ValidString (string_or "" (member k ms)) = true.
Proof.
  intros Hvalid. cbn in Hvalid. apply andb_prop in Hvalid as [_ Hall].
  rewrite List.forallb_forall in Hall.
  destruct (member k ms) as [v|] eqn:Hm; [|reflexivity].
  apply member_In, Hall in Hm. cbn in Hm. apply andb_prop in Hm as [_ Hv].
  destruct v; try reflexivity. exact Hv.
Qed.

Lemma int_or_range (ms : list (string * JSON)) :
  Forall (fun m => violates m = false) ms ->
  int_range (int_or 0 (member "status" ms)).
Proof.
  intros Hok. rewrite Forall_forall in Hok.
  destruct (member "status" ms) as [v|] eqn:Hm; [|cbn; unfold int_range; lia].
  apply member_In, list_elem_of_In, Hok in Hm. cbn in Hm.
  destruct v as [| |[z|mant e]| | |]; cbn; try (unfold int_range; lia).
  apply negb_false_iff in Hm. now apply int_rangeb_range.
Qed.

Lemma unmarshalAlias_wellformed (data : Data) (temp : responseAlias) :
  unmarshalAlias data = inr temp ->
  utf8.ValidString (alias.Type_ temp) = true
  /\ utf8.ValidString (alias.Title temp) = true
  /\ utf8.ValidString (alias.Detail temp) = true
  /\ utf8.ValidString (alias.Instance temp) = true
  /\ int_range (alias.Status temp).
Proof.
  destruct data as [|v]; [discriminate|].
  destruct v as [| b | n | s | vs | ms];
    try (unfold unmarshalAlias; destruct (jsontext_valid _); discriminate).
  - unfold unmarshalAlias. cbn. intros [= <-]. cbn.
    repeat split; unfold int_range; lia.
  - intros Ha. apply unmarshalAlias_by_name in Ha as (Hvalid & Hok & ->).
    cbn [alias_of alias_from alias.Type_ alias.Title alias.Detail
         alias.Instance alias.Status alias.zero].
    do 4 (split; [now apply string_or_valid|]).
    now apply int_or_range.
Qed.

(** X13. Whatever [UnmarshalJSON] decodes is well formed: the four strings
    of the document are valid UTF-8 and the status is a Go int. So a
    decoded document without extensions survives a further round trip
    unchanged: it encodes, and the encoding decodes to the very same
    document. *)
Theorem decoded_documents_round_trip (r : Response Inst) data w r' w' :
  UnmarshalJSON unmarshalInto r data w = Returned (r', None) w' ->
  utf8.ValidString (Type_ r') = true
  /\ utf8.ValidString (Title r') = true
  /\ utf8.ValidString (Detail r') = true
  /\ utf8.ValidString (Instance r') = true
  /\ int_range (Status r')
  /\ (Extensions r' = [] ->
      exists v,
        marshalResponse marshalValue marshalMap r' = Some v
        /\ forall r0 w0,
             UnmarshalJSON unmarshalInto r0 (Text v) w0 = Returned (r', None) w0).
Proof.
  intros Hret.
  destruct (unmarshalAlias data) as [err|temp] eqn:Ha.
  { rewrite (UnmarshalJSON_failed _ _ _ _ _ Ha) in Hret. discriminate. }
  destruct (UnmarshalJSON_result _ _ _ _ _ _ _ Ha Hret) as [[= ->] _].
  destruct (unmarshalAlias_wellformed _ _ Ha) as (Hty & Hti & Hde & Hin & Hst).
  cbn [document Type_ Title Detail Instance Status Extensions].
  repeat (split; [assumption|]).
  intros He.
  set (r' := document temp _).
  destruct (marshal_then_decode r' r' (Build_World None []) He Hst) as (v & Hv & _).
  exists v. split; [exact Hv|]. intros r0 w0.
  destruct (marshal_then_decode r' r0 w0 He Hst) as (v' & Hv' & Hdec).
  rewrite Hv in Hv'. injection Hv' as <-. rewrite Hdec. do 2 f_equal.
  unfold coerced, r'. cbn [document Type_ Title Detail Instance Status Extensions].
  now rewrite !coerce_valid by assumption.
Qed.

End Reencode.

(** ** [SprintfMany] and [Error] *)

Lemma append_nil_r (s : string) : (s ++ "")%string = s.
Proof.
  induction s as [|c s IH]; [reflexivity|].
  change (String c (s ++ "")%string = String c s). now rewrite IH.
Qed.

Lemma append_assoc (a b c : string) :
  ((a ++ b) ++ c)%string = (a ++ (b ++ c))%string.
Proof.
  induction a as [|x a IH]; [reflexivity|].
  change (String x ((a ++ b) ++ c)%string = String x (a ++ (b ++ c))%string).
  now rewrite IH.
Qed.

Lemma sprintf_plain (lit format : string) (args : list Param) :
  no_percent lit = true ->
  sprintf (lit ++ format) args
  = option_map (String.append lit) (sprintf format args).
Proof.
  induction lit as [|c lit IH]; cbn [no_percent].
  - intros _. change ("" ++ format)%string with format.
    destruct (sprintf format args); reflexivity.
  - intros H. apply andb_prop in H as [Hc Hlit]. apply negb_true_iff in Hc.
    change (String c lit ++ format)%string with (String c (lit ++ format)%string).
    cbn [sprintf]. rewrite Hc, (IH Hlit).
    destruct (sprintf format args); reflexivity.
Qed.

Lemma concat_cons (x : string) (xs : list string) :
  String.concat "" (x :: xs) = (x ++ String.concat "" xs)%string.
Proof. destruct xs; [symmetry; apply append_nil_r | reflexivity]. Qed.

Section Formatted.

Variable Sprintf : string -> list Param -> string.

Lemma interleave_even (formats : list string) :
  forall values,
    Nat.odd (length (interleave formats values)) = false
    /\ formats_are_strings (interleave formats values) = true.
Proof.
  induction formats as [|f formats IH]; intros [|v values]; cbn;
    try (split; reflexivity).
  destruct (IH values) as [Hodd Hfs]. split; [|exact Hfs].
  change (Nat.odd (S (S ?n))) with (Nat.odd n). exact Hodd.
Qed.

Lemma writePairs_interleave (sep : string) (formats : list string) :
  forall values sb args w,
    length formats = length values ->
    writePairs sep (interleave formats values) sb args w
    = Returned
        ((sb ++ String.concat "" (map (fun f => f ++ sep) formats))%string,
         args ++ values) w.
Proof.
  induction formats as [|f formats IH]; intros [|v values] sb args w Hlen;
    try discriminate; cbn [interleave writePairs map].
  - change (String.concat "" []) with "". now rewrite append_nil_r, app_nil_r.
  - injection Hlen as Hlen. rewrite (IH values _ _ w Hlen).
    rewrite <- app_assoc, concat_cons, !append_assoc. reflexivity.
Qed.

(** X14. Given formats and values in turn, as many of the one as of the
    other and at least a pair, [SprintfMany] calls [fmt.Sprintf] once: the
    format is the prefix, the separator, and every given format followed
    by the separator (the last one too); the operands are the values in
    their order. Given nothing, it returns the prefix as it is, without
    formatting it. *)
Theorem SprintfMany_builds_one_format
    (prefix sep : string) (f : string) (formats : list string)
    (v : Param) (values : list Param) w :
  length formats = length values ->
  SprintfMany Sprintf prefix sep (interleave (f :: formats) (v :: values)) w
  = Returned
      (Sprintf (prefix ++ sep
                ++ String.concat "" (map (fun f => f ++ sep) (f :: formats)))%string
         (v :: values)) w
  /\ SprintfMany Sprintf prefix sep [] w = Returned prefix w.
Proof.
  intros Hlen. split; [|reflexivity].
  destruct (interleave_even (f :: formats) (v :: values)) as [Hodd _].
  unfold SprintfMany. cbn [interleave] in *. rewrite Hodd.
  unfold mbind, M_bind.
  change (PString f :: v :: interleave formats values)
    with (interleave (f :: formats) (v :: values)).
  rewrite (writePairs_interleave sep (f :: formats) (v :: values) _ [] w)
    by (cbn; now rewrite Hlen).
  cbn [app]. now rewrite append_assoc.
Qed.

Lemma writePairs_returns (sep : string) (n : nat) :
  forall params sb args w,
    (length params <= n)%nat ->
    (exists out, writePairs sep params sb args w = Returned out w)
    <-> formats_are_strings params = true.
Proof.
  induction n as [|n IH]; intros params sb args w Hlen.
  - destruct params; [|cbn in Hlen; lia]. cbn. split; eauto.
  - destruct params as [|p [|v rest]].
    + cbn. split; eauto.
    + destruct p; cbn; split; eauto.
    + destruct p; cbn [writePairs formats_are_strings];
        try (split; [intros [out H]; discriminate|discriminate]).
      apply IH. cbn in Hlen. lia.
Qed.

(** X15. [SprintfMany] returns exactly when the number of its parameters
    is even and every parameter at an even position is a string; it
    panics otherwise, on an odd number before anything is formatted and on
    a format that is not a string at the failed assertion. It leaves the
    process as it was. *)
Theorem SprintfMany_returns_iff (prefix sep : string) (params : list Param) w :
  (exists s, SprintfMany Sprintf prefix sep params w = Returned s w)
  <-> Nat.odd (length params) = false /\ formats_are_strings params = true.
Proof.
  unfold SprintfMany. destruct params as [|p params]; [cbn; split; eauto|].
  destruct (Nat.odd (length (p :: params))) eqn:Hodd.
  - split; [intros [s H]; discriminate|intros [H _]; discriminate].
  - unfold mbind, M_bind.
    pose proof (writePairs_returns sep (length (p :: params)) (p :: params)
                  (prefix ++ sep)%string [] w (le_n _)) as Hpairs.
    split.
    + intros [s Hs]. split; [reflexivity|]. apply Hpairs.
      destruct (writePairs sep (p :: params) _ [] w) as [[fmt args] w1|msg] eqn:Hw;
        [|discriminate].
      injection Hs as _ ->. eauto.
    + intros [_ Hfs]. apply Hpairs in Hfs as [[fmt args] Hw].
      rewrite Hw. eauto.
Qed.

Hypothesis Sprintf_modelled_part :
  forall format args s, sprintf format args = Some s -> Sprintf format args = s.

(** X16. [Error] never panics. When the title holds no percent sign, the
    text is the title on a line of its own and then, one on a line each,
    title, error_type, error_detail, http_status (in decimal) and
    instance, every line ended by a line feed. *)
Theorem Error_lists_the_fields {Inst : Type} (r : Response Inst) w :
  (exists s, Error Sprintf r w = Returned s w)
  /\ (no_percent (Title r) = true ->
      Error Sprintf r w
      = Returned
          (Title r ++ LF
           ++ "title=" ++ Title r ++ LF
           ++ "error_type=" ++ Type_ r ++ LF
           ++ "error_detail=" ++ Detail r ++ LF
           ++ "http_status=" ++ decimal (Status r) ++ LF
           ++ "instance=" ++ Instance r ++ LF)%string w).
Proof.
  split; [eexists; reflexivity|].
  intros Hplain. unfold Error, SprintfMany. cbn [length Nat.odd Nat.even negb].
  unfold mbind, M_bind. cbn [writePairs app]. unfold mret, M_ret. f_equal.
  apply Sprintf_modelled_part.
  rewrite !append_assoc, (sprintf_plain _ _ _ Hplain). reflexivity.
Qed.

End Formatted.

(** ** The logger and the encoder, once more *)

Section Safety.

Context {Inst : Type}
  (unmarshalInto : GoType -> JSON -> option Inst)
  (marshalValue : GoType -> Inst -> option JSON)
  (marshalMap : GoMap -> option JSON).


Lemma marshalExtensions_elements (exts : list (Extension Inst)) :
  forall vs,
    marshalExtensions marshalValue marshalMap exts = Some vs ->
    length vs = length exts
    /\ forall i, exts !! i = Some ExtNil -> vs !! i = Some JNull.
Proof.
  induction exts as [|ext exts IH]; intros vs; cbn [marshalExtensions].
  - intros [= <-]. split; [reflexivity|]. intros i Hi. now destruct i.
  - destruct (marshalExtension marshalValue marshalMap ext) as [v|] eqn:Hv;
      [|discriminate].
    destruct (marshalExtensions marshalValue marshalMap exts) as [vs'|];
      [|discriminate].
    intros [= <-]. destruct (IH vs' eq_refl) as [Hlen Hnil].
    split; [cbn; now rewrite Hlen|].
    intros [|i] Hi; cbn in Hi |- *.
    + injection Hi as ->. cbn in Hv. now injection Hv as <-.
    + now apply Hnil.
Qed.

Lemma member_app_absent (k : string) (ms1 ms2 : list (string * JSON)) :
  member k ms1 = None -> member k (ms1 ++ ms2) = member k ms2.
Proof.
  induction ms1 as [|[k' v] ms1 IH]; cbn [app member]; [reflexivity|].
  destruct (String.eqb k k'); [discriminate|exact IH].
Qed.

(** X18. When a document with extensions encodes, the member extensions
    of the encoding is an array with one element for each extension, in
    their order, and a nil extension (what a failed element leaves after a
    decode) is written as null at its position. *)
Theorem nil_extensions_encode_as_null (r : Response Inst) (v : JSON) :
  marshalResponse marshalValue marshalMap r = Some v ->
  Extensions r <> [] ->
  exists ms vs,
    v = JObject ms
    /\ member "extensions" ms = Some (JArray vs)
    /\ length vs = length (Extensions r)
    /\ forall i, Extensions r !! i = Some ExtNil -> vs !! i = Some JNull.
Proof.
  unfold marshalResponse. intros Hv Hne.
  destruct (marshalExtensions marshalValue marshalMap (Extensions r)) as [vs|] eqn:Hvs;
    [|discriminate].
  injection Hv as <-. eexists _, vs. split; [reflexivity|].
  destruct (marshalExtensions_elements _ _ Hvs) as [Hlen Hnil].
  split; [|split; assumption].
  destruct (Extensions r) as [|ext exts]; [contradiction|].
  unfold omitempty_string. cbn [app member].
  replace (String.eqb "extensions" "type") with false by reflexivity.
  replace (String.eqb "extensions" "title") with false by reflexivity.
  replace (String.eqb "extensions" "status") with false by reflexivity.
  rewrite !member_app_absent.
  - cbn. reflexivity.
  - destruct (String.eqb (Instance r) ""); reflexivity.
  - destruct (String.eqb (Detail r) ""); reflexivity.
Qed.

End Safety.

(** ** The catalog of error types *)

(** X19. The fifteen error types are pairwise different, each is the root
    URI followed by the path of the test server and a path of its own, and
    each is written by the encoder as it is. *)
Theorem error_types_are_distinct_URIs :
  NoDup ErrorTypes.all
  /\ Forall (fun t =>
       String.prefix "https://schema.xmlui.org/errors/test-server/api/" t = true
       /\ utf8.coerce t = t) ErrorTypes.all.
Proof.
  split.
  - apply distinct_NoDup. vm_compute. reflexivity.
  - repeat (constructor; [split; vm_compute; reflexivity|]). constructor.
Qed.

(** ** The checks of the example server *)

Lemma byte_val_bounds (c : ascii) : 0 <= utf8.byte_val c < 256.
Proof.
  unfold utf8.byte_val. pose proof (N_ascii_bounded c). lia.
Qed.

Lemma between_spec (lo hi : Z) (c : ascii) :
  utf8.between lo hi c = true <-> lo <= utf8.byte_val c <= hi.
Proof.
  unfold utf8.between. rewrite andb_true_iff, !Z.leb_le. reflexivity.
Qed.

Lemma decodeRune_ascii (c : ascii) (t : string) :
  utf8.between 0 127 c = true ->
  utf8.runeWidth (String c t) = 1%nat /\ decodeRune (String c t) = utf8.byte_val c.
Proof.
  intros H. unfold decodeRune, utf8.runeWidth. now rewrite H.
Qed.

Lemma decodeRune_beyond_ascii (c : ascii) (t : string) :
  utf8.between 0 127 c = false -> 128 <= decodeRune (String c t).
Proof.
  intros E0. unfold decodeRune, utf8.runeWidth. rewrite E0.
  destruct t as [|b1 t1]; [lia|].
  destruct (utf8.between 194 223 c && utf8.cont b1) eqn:E1.
  { apply andb_prop in E1 as [Hc _]. apply between_spec in Hc.
    pose proof (byte_val_bounds b1).
    pose proof (Z.mod_pos_bound (utf8.byte_val b1) 64 eq_refl).
    pose proof (Z.div_mod (utf8.byte_val c) 32 ltac:(lia)).
    pose proof (Z.mod_pos_bound (utf8.byte_val c) 32 eq_refl). lia. }
  destruct t1 as [|b2 t2]; [lia|].
  destruct (utf8.second_of_3 c b1 && utf8.cont b2) eqn:E2.
  { apply andb_prop in E2 as [Hs _]. unfold utf8.second_of_3 in Hs.
    pose proof (Z.mod_pos_bound (utf8.byte_val b1) 64 eq_refl).
    pose proof (Z.mod_pos_bound (utf8.byte_val b2) 64 eq_refl).
    pose proof (Z.div_mod (utf8.byte_val c) 16 ltac:(lia)).
    pose proof (Z.mod_pos_bound (utf8.byte_val c) 16 eq_refl).
    pose proof (Z.div_mod (utf8.byte_val b1) 64 ltac:(lia)).
    repeat match type of Hs with
           | (if utf8.between ?lo ?hi c then _ else _) = true =>
               let E := fresh "E" in
               destruct (utf8.between lo hi c) eqn:E;
               [apply between_spec in E|]
           end;
      try discriminate;
      unfold utf8.cont in *; apply between_spec in Hs; lia. }
  destruct t2 as [|b3 t3]; [lia|].
  destruct (utf8.second_of_4 c b1 && utf8.cont b2 && utf8.cont b3) eqn:E3;
    [|lia].
  apply andb_prop in E3 as [E3 _]. apply andb_prop in E3 as [Hs _].
  unfold utf8.second_of_4 in Hs.
  pose proof (Z.mod_pos_bound (utf8.byte_val b1) 64 eq_refl).
  pose proof (Z.mod_pos_bound (utf8.byte_val b2) 64 eq_refl).
  pose proof (Z.mod_pos_bound (utf8.byte_val b3) 64 eq_refl).
  pose proof (Z.div_mod (utf8.byte_val c) 8 ltac:(lia)).
  pose proof (Z.mod_pos_bound (utf8.byte_val c) 8 eq_refl).
  pose proof (Z.div_mod (utf8.byte_val b1) 64 ltac:(lia)).
  repeat match type of Hs with
         | (if utf8.between ?lo ?hi c then _ else _) = true =>
             let E := fresh "E" in
             destruct (utf8.between lo hi c) eqn:E;
             [apply between_spec in E|]
         end;
    try discriminate;
    unfold utf8.cont in *; apply between_spec in Hs; lia.
Qed.

(** A loop over the runes that refuses everything beyond ASCII comes to
    the same as a loop over the bytes. *)
Lemma noneBad_bytes (bad : Z -> bool) :
  (forall c, 128 <= c -> bad c = true) ->
  forall s, noneBad bad (range s) = everyByte (fun b => negb (bad b)) s.
Proof.
  intros Hbad. induction s as [|c t IH]; [reflexivity|].
  unfold range. cbn [range_from noneBad everyByte].
  destruct (utf8.between 0 127 c) eqn:E0.
  - destruct (decodeRune_ascii c t E0) as [Hw ->]. rewrite Hw. cbn [Nat.pred].
    fold (range t). rewrite IH. now destruct (bad (utf8.byte_val c)).
  - rewrite (Hbad _ (decodeRune_beyond_ascii c t E0)).
    assert (128 <= utf8.byte_val c).
    { pose proof (byte_val_bounds c).
      destruct (Z.le_gt_cases 128 (utf8.byte_val c)) as [?|Hlt]; [assumption|].
      assert (utf8.between 0 127 c = true) by (apply between_spec; lia).
      congruence. }
    now rewrite (Hbad _ H).
Qed.

Lemma isNumeric_bytes (s : string) :
  isNumeric s = negb (String.eqb s "") && everyByte isDigitByte s.
Proof.
  unfold isNumeric. destruct (String.eqb s ""); [reflexivity|]. cbn [negb andb].
  rewrite noneBad_bytes by (intros c Hc; unfold notDigit; apply orb_true_iff; right; lia).
  clear. induction s as [|c t IH]; [reflexivity|]. cbn [everyByte]. rewrite IH.
  f_equal. unfold notDigit, isDigitByte.
  destruct (Z.ltb_spec (utf8.byte_val c) 48), (Z.ltb_spec 57 (utf8.byte_val c)),
    (Z.leb_spec 48 (utf8.byte_val c)), (Z.leb_spec (utf8.byte_val c) 57);
    cbn; try reflexivity; lia.
Qed.

(** X20. Though they range over runes, [isNumeric] and [isValidSlug]
    decide by bytes: [isNumeric] holds exactly of the non-empty strings of
    the bytes 0 to 9, [isValidSlug] exactly of the non-empty strings of
    ASCII letters, digits, hyphen and underscore. Nothing beyond ASCII and
    no invalid byte passes. *)
Theorem example_checks_decide_by_bytes (s : string) :
  (isNumeric s = true <-> s <> "" /\ everyByte isDigitByte s = true)
  /\ (isValidSlug s = true <-> s <> "" /\ everyByte isSlugByte s = true).
Proof.
  split.
  - rewrite isNumeric_bytes, andb_true_iff, negb_true_iff.
    destruct (String.eqb_spec s ""); split; intros [? ?]; split;
      auto; try discriminate; contradiction.
  - unfold isValidSlug.
    destruct (String.eqb_spec s "") as [->|Hne].
    { split; [discriminate|]. now intros [? _]. }
    rewrite noneBad_bytes.
    + assert (everyByte (fun b => negb (notSlugRune b)) s = everyByte isSlugByte s)
        as ->.
      { clear. induction s as [|c t IH]; [reflexivity|]. cbn [everyByte].
        rewrite IH. f_equal. unfold notSlugRune, isSlugByte.
        now rewrite negb_involutive. }
      split; [now split|now intros [_ ?]].
    + intros c Hc. unfold notSlugRune. apply negb_true_iff.
      repeat (apply orb_false_intro);
        try (apply andb_false_iff; right; apply Z.leb_gt; lia);
        apply Z.eqb_neq; lia.
Qed.

Lemma scores_up_to_999 :
  forallb (fun n => isValidScore (decimal (Z.of_nat n))) (seq 0 1000) = true.
Proof. vm_compute. reflexivity. Qed.

(** X21. [isValidScore] holds exactly of the strings of one to three
    decimal digits. So it lets through every number from 0 to 999 in
    decimal, those above 100 included, and nothing with four bytes or
    more. *)
Theorem isValidScore_takes_three_digits (s : string) (n : Z) :
  (isValidScore s = true
   <-> (1 <= String.length s <= 3)%nat /\ everyByte isDigitByte s = true)
  /\ (0 <= n <= 999 -> isValidScore (decimal n) = true).
Proof.
  split.
  - unfold isValidScore. rewrite isNumeric_bytes.
    destruct (String.eqb_spec s "") as [->|Hne]; cbn [negb andb].
    + split; [discriminate|]. cbn. lia.
    + assert (1 <= String.length s)%nat by (destruct s; [contradiction|cbn; lia]).
      destruct (everyByte isDigitByte s); cbn [negb].
      * destruct (Nat.ltb_spec 3 (String.length s)); split;
          try discriminate; intros; try split; auto; lia.
      * split; [discriminate|]. now intros [_ ?].
  - intros Hn. pose proof scores_up_to_999 as Hall.
    rewrite List.forallb_forall in Hall.
    specialize (Hall (Z.to_nat n)). rewrite Z2Nat.id in Hall by lia.
    apply Hall. apply in_seq. lia.
Qed.

(** ** The corpus helpers *)

Lemma pad_replicate (rounds : nat) :
  forall parts, pad rounds parts = parts ++ replicate rounds EmptyString.
Proof.
  induction rounds as [|k IH]; intros parts; cbn [pad replicate].
  - now rewrite app_nil_r.
  - rewrite IH, <- app_assoc. reflexivity.
Qed.

Lemma Split_nonempty (sep : ascii) (s : string) : (1 <= length (Split sep s))%nat.
Proof.
  induction s as [|c t IH]; cbn [Split]; [cbn; lia|].
  destruct (Ascii.eqb c sep); [cbn; lia|].
  destruct (Split sep t); cbn in *; lia.
Qed.

(** X22. For a count that is not negative, [parseCorpusParts] returns
    exactly that many parts: the parts of the input between the zero
    bytes, cut off after the count or filled up with empty strings. (So
    the test of the callers for another number of parts never fires.) For
    a negative count it panics. *)
Theorem parseCorpusParts_gives_the_count (input : string) (n : Z) w :
  (0 <= n ->
   exists parts,
     parseCorpusParts input n w = Returned parts w
     /\ Z.of_nat (length parts) = n
     /\ parts = take (Z.to_nat n)
                  (Split NUL input ++ replicate (Z.to_nat n) EmptyString))
  /\ (n < 0 -> exists msg, parseCorpusParts input n w = Panicked msg).
Proof.
  unfold parseCorpusParts. pose proof (Split_nonempty NUL input) as Hlen.
  set (parts := Split NUL input) in *.
  destruct (Z.eqb_spec (Z.of_nat (length parts)) n) as [Heq|Hne].
  { split; [|lia]. intros _. exists parts. split; [reflexivity|].
    split; [exact Heq|]. subst n. rewrite Nat2Z.id.
    now rewrite take_app_length. }
  destruct (Z.ltb_spec (Z.of_nat (length parts)) n) as [Hlt|Hge].
  { split; [|lia]. intros _. eexists. split; [reflexivity|].
    rewrite pad_replicate. split.
    - rewrite length_app, length_replicate. lia.
    - rewrite take_app_ge by lia. f_equal.
      rewrite take_replicate. f_equal. lia. }
  destruct (Z.ltb_spec n 0) as [Hneg|Hpos].
  { split; [lia|]. intros _. eexists. reflexivity. }
  split; [|lia]. intros _. eexists. split; [reflexivity|]. split.
  - rewrite length_take. lia.
  - rewrite take_app_le by lia. reflexivity.
Qed.

Lemma Split_without (sep : ascii) (x : string) :
  hasByte sep x = false -> Split sep x = [x].
Proof.
  induction x as [|c t IH]; cbn [hasByte Split]; [reflexivity|].
  intros H. apply orb_false_elim in H as [Hc Ht].
  now rewrite Hc, (IH Ht).
Qed.

Lemma Split_at (sep : ascii) (x rest : string) :
  hasByte sep x = false ->
  Split sep (x ++ String sep rest) = x :: Split sep rest.
Proof.
  induction x as [|c t IH]; cbn [hasByte]; intros H.
  - change ("" ++ String sep rest)%string with (String sep rest).
    cbn [Split]. now rewrite Ascii.eqb_refl.
  - apply orb_false_elim in H as [Hc Ht].
    change (String c t ++ String sep rest)%string
      with (String c (t ++ String sep rest)%string).
    cbn [Split]. now rewrite Hc, (IH Ht).
Qed.

Lemma Split_Join (sep : ascii) (x : string) (xs : list string) :
  Forall (fun y => hasByte sep y = false) (x :: xs) ->
  Split sep (Join (x :: xs) sep) = x :: xs.
Proof.
  revert x. induction xs as [|x' xs IH]; intros x Hall;
    inversion Hall as [|? ? Hx Hrest]; subst.
  - now apply Split_without.
  - replace (Join (x :: x' :: xs) sep)
      with (x ++ String sep (Join (x' :: xs) sep))%string by reflexivity.
    rewrite (Split_at _ _ _ Hx). f_equal. now apply IH.
Qed.

(** X23. What [extractCorpusInput] joins, [parseCorpusParts] takes apart
    again: values of which none holds a zero byte, joined by zero bytes
    and parsed with their own number as the count, come back as they
    were. *)
Theorem corpus_parts_round_trip (x : string) (xs : list string) w :
  Forall (fun y => hasByte NUL y = false) (x :: xs) ->
  parseCorpusParts (Join (x :: xs) NUL) (Z.of_nat (length (x :: xs))) w
  = Returned (x :: xs) w.
Proof.
  intros Hall. unfold parseCorpusParts. rewrite (Split_Join _ _ _ Hall).
  now rewrite Z.eqb_refl.
Qed.

(** * The further properties at work *)

Lemma registration_keeps_resolutions_witness :
  unmarshalExtension unmarshalInto first 0 typed
  = Returned (ExtValue (TNamed "ErrorCode") (ErrorCode 5 "x"), None) typed
  /\ exists w',
       RegisterExtension protoRetry typed = Returned tt w'
       /\ registeredExtensions w' = registeredExtensions typed ++ [protoRetry]
       /\ logger w' = logger typed
       /\ unmarshalExtension unmarshalInto first 0 w'
          = Returned (ExtValue (TNamed "ErrorCode") (ErrorCode 5 "x"), None) w'.
Proof.
  apply (registration_keeps_resolutions unmarshalInto protoRetry first 0 typed).
  reflexivity.
Defined.

Lemma registering_twice_is_harmless_witness :
  exists w',
    RegisterExtension protoRetry typed = Returned tt w'
    /\ forall (r : Response Inst) data,
         same_but_registry (UnmarshalJSON unmarshalInto r data typed)
                           (UnmarshalJSON unmarshalInto r data w').
Proof.
  apply (registering_twice_is_harmless unmarshalInto protoRetry typed).
  apply list_elem_of_In. right. left. reflexivity.
Defined.

Lemma pointer_and_value_prototypes_agree_witness :
  same_but_registry
    (UnmarshalJSON unmarshalInto blank (problem three) typed)
    (UnmarshalJSON unmarshalInto blank (problem three)
       {| logger := Some {| records := [] |};
          registeredExtensions :=
            [{| registeredType := TNamed "ErrorCode" |};
             {| registeredType := TPtr (TNamed "Retry") |}] |}).
Proof.
  apply (pointer_and_value_prototypes_agree unmarshalInto blank (problem three)
           typed
           {| logger := Some {| records := [] |};
              registeredExtensions :=
                [{| registeredType := TNamed "ErrorCode" |};
                 {| registeredType := TPtr (TNamed "Retry") |}] |}).
  - reflexivity.
  - reflexivity.
Defined.

Lemma decode_only_appends_records_witness :
  registeredExtensions
    (with_records quiet {| records := [] |} (logged_from unmarshalInto [] three 0))
  = registeredExtensions quiet
  /\ (logger (with_records quiet {| records := [] |}
                (logged_from unmarshalInto [] three 0)) = None
      <-> logger quiet = None)
  /\ exists recs,
       records_of (with_records quiet {| records := [] |}
                     (logged_from unmarshalInto [] three 0))
       = records_of quiet ++ recs.
Proof.
  apply (decode_only_appends_records unmarshalInto blank (problem three) quiet
           (document (fields three) (map (entry unmarshalInto []) three), None)).
  apply (UnmarshalJSON_logged unmarshalInto blank (problem three)
           (fields three) quiet {| records := [] |}); reflexivity.
Defined.

Lemma one_record_per_unmatched_element_witness :
  exists r' w' l',
    UnmarshalJSON unmarshalInto blank (problem three) typed = Returned (r', None) w'
    /\ logger w' = Some l'
    /\ length (records l')
       = (0 + length (List.filter
                        (unmatchedb unmarshalInto [protoErrorCode; protoRetry])
                        three))%nat.
Proof.
  apply (one_record_per_unmatched_element unmarshalInto blank (problem three)
           (fields three) typed {| records := [] |}); reflexivity.
Defined.

Lemma fixed_fields_by_name_witness :
  unmarshalAlias (problem three) = inr (fields three).
Proof.
  apply (proj2 (fixed_fields_by_name
                  [("type", JString "about:blank"); ("title", JString "Conflict");
                   ("status", JNumber (NInt 409)); ("extensions", JArray three)]
                  (fields three))).
  split; [vm_compute; reflexivity|]. split; [|reflexivity].
  repeat (constructor; [reflexivity|]). constructor.
Defined.

Lemma decode_replaces_receiver_witness :
  {| Type_ := ""; Title := "Gone"; Status := 0; Detail := "";
     Instance := ""; Extensions := [] |}
  = document (Inst := Inst) (alias_of [("title", JString "Gone")])
      (map (entry unmarshalInto [])
         (values_or [] (member "extensions" [("title", JString "Gone")])))
  /\ UnmarshalJSON unmarshalInto detailed (Text JNull) quiet
     = Returned (document alias.zero [], None) quiet.
Proof.
  split.
  - apply (proj1 (decode_replaces_receiver unmarshalInto detailed
                    [("title", JString "Gone")] quiet)
             {| Type_ := ""; Title := "Gone"; Status := 0; Detail := "";
                Instance := ""; Extensions := [] |} quiet).
    vm_compute. reflexivity.
  - apply (proj2 (decode_replaces_receiver unmarshalInto detailed
                    [("title", JString "Gone")] quiet)).
Defined.

Lemma unknown_members_are_skipped_witness :
  UnmarshalJSON unmarshalInto blank
    (Text (JObject [("type", JString "about:blank"); ("Title", JString "x");
                    ("status", JNumber (NInt 409))])) quiet
  = UnmarshalJSON unmarshalInto blank
      (Text (JObject [("type", JString "about:blank");
                      ("status", JNumber (NInt 409))])) quiet.
Proof.
  apply (unknown_members_are_skipped unmarshalInto blank
           [("type", JString "about:blank")]
           [("status", JNumber (NInt 409))] "Title" (JString "x") quiet).
  - vm_compute. reflexivity.
  - reflexivity.
Defined.

Lemma member_order_is_irrelevant_witness :
  unmarshalAlias
    (Text (JObject [("status", JNumber (NInt 409)); ("type", JString "about:blank")]))
  = inr (alias.mk "about:blank" "" 409 "" "" [])
  /\ UnmarshalJSON unmarshalInto blank
       (Text (JObject [("status", JNumber (NInt 409));
                       ("type", JString "about:blank")])) quiet
     = UnmarshalJSON unmarshalInto blank
         (Text (JObject [("type", JString "about:blank");
                         ("status", JNumber (NInt 409))])) quiet.
Proof.
  apply (member_order_is_irrelevant unmarshalInto blank
           [("type", JString "about:blank"); ("status", JNumber (NInt 409))]
           [("status", JNumber (NInt 409)); ("type", JString "about:blank")]
           (alias.mk "about:blank" "" 409 "" "" []) quiet).
  - apply perm_swap.
  - vm_compute. reflexivity.
Defined.

Lemma encoding_always_decodes_witness :
  exists v,
    marshalResponse marshalValue marshalMap garbled = Some v
    /\ forall r0 w,
         UnmarshalJSON unmarshalInto r0 (Text v) w
         = Returned (coerced garbled, None) w.
Proof.
  apply (encoding_always_decodes unmarshalInto marshalValue marshalMap garbled).
  - reflexivity.
  - unfold int_range. cbn. lia.
Defined.

Lemma decoded_documents_round_trip_witness :
  utf8.ValidString "about:blank" = true
  /\ utf8.ValidString "Conflict" = true
  /\ utf8.ValidString "" = true
  /\ utf8.ValidString "" = true
  /\ int_range 409
  /\ (Extensions (document (Inst := Inst) (fields []) []) = [] ->
      exists v,
        marshalResponse marshalValue marshalMap (document (fields []) []) = Some v
        /\ forall r0 w0,
             UnmarshalJSON unmarshalInto r0 (Text v) w0
             = Returned (document (fields []) [], None) w0).
Proof.
  apply (decoded_documents_round_trip unmarshalInto marshalValue marshalMap
           blank (problem []) quiet (document (fields []) []) quiet).
  reflexivity.
Defined.

Lemma SprintfMany_builds_one_format_witness :
  SprintfMany Sprintf_modelled "p" LF
    (interleave ["a=%s"; "b=%d"] [PString "x"; PInt 7]) quiet
  = Returned
      (Sprintf_modelled
         ("p" ++ LF ++ String.concat "" (map (fun f => f ++ LF) ["a=%s"; "b=%d"]))%string
         [PString "x"; PInt 7]) quiet
  /\ SprintfMany Sprintf_modelled "p" LF [] quiet = Returned "p" quiet.
Proof.
  apply (SprintfMany_builds_one_format Sprintf_modelled "p" LF "a=%s" ["b=%d"]
           (PString "x") [PInt 7] quiet).
  reflexivity.
Defined.

Lemma Sprintf_modelled_sound format args s :
  sprintf format args = Some s -> Sprintf_modelled format args = s.
Proof. unfold Sprintf_modelled. now intros ->. Defined.

Lemma Error_lists_the_fields_witness :
  (exists s, Error Sprintf_modelled detailed quiet = Returned s quiet)
  /\ (no_percent (Title detailed) = true ->
      Error Sprintf_modelled detailed quiet
      = Returned
          ("Conflict" ++ LF
           ++ "title=Conflict" ++ LF
           ++ "error_type=about:blank" ++ LF
           ++ "error_detail=already exists" ++ LF
           ++ "http_status=409" ++ LF
           ++ "instance=/items/7" ++ LF)%string quiet).
Proof.
  apply (Error_lists_the_fields Sprintf_modelled Sprintf_modelled_sound
           detailed quiet).
Defined.


Lemma nil_extensions_encode_as_null_witness :
  exists ms vs,
    JObject [("type", JString ""); ("title", JString "");
             ("status", JNumber (NInt 0));
             ("extensions",
              JArray [JNull; JObject [("after", JNumber (NInt 3))]])]
    = JObject ms
    /\ member "extensions" ms = Some (JArray vs)
    /\ length vs = 2%nat
    /\ forall i,
         [ExtNil; ExtValue (TNamed "Retry") (Retry 3)] !! i = Some ExtNil ->
         vs !! i = Some JNull.
Proof.
  apply (nil_extensions_encode_as_null marshalValue marshalMap
           {| Type_ := ""; Title := ""; Status := 0; Detail := "";
              Instance := "";
              Extensions := [ExtNil; ExtValue (TNamed "Retry") (Retry 3)] |}).
  - vm_compute. reflexivity.
  - discriminate.
Defined.

Lemma isValidScore_takes_three_digits_witness :
  (isValidScore "150" = true
   <-> (1 <= String.length "150" <= 3)%nat /\ everyByte isDigitByte "150" = true)
  /\ isValidScore (decimal 150) = true.
Proof.
  split.
  - apply (proj1 (isValidScore_takes_three_digits "150" 150)).
  - apply (proj2 (isValidScore_takes_three_digits "150" 150)). lia.
Defined.

Lemma parseCorpusParts_gives_the_count_witness :
  (exists parts,
     parseCorpusParts "a" 5 quiet = Returned parts quiet
     /\ Z.of_nat (length parts) = 5
     /\ parts = take (Z.to_nat 5)
                  (Split NUL "a" ++ replicate (Z.to_nat 5) EmptyString))
  /\ exists msg, parseCorpusParts "a" (-1) quiet = Panicked msg.
Proof.
  split.
  - apply (proj1 (parseCorpusParts_gives_the_count "a" 5 quiet)). lia.
  - apply (proj2 (parseCorpusParts_gives_the_count "a" (-1) quiet)). lia.
Defined.

Lemma corpus_parts_round_trip_witness :
  parseCorpusParts (Join ["about:blank"; "Conflict"; "409"; ""; ""] NUL)
    (Z.of_nat (length ["about:blank"; "Conflict"; "409"; ""; ""])) quiet
  = Returned ["about:blank"; "Conflict"; "409"; ""; ""] quiet.
Proof.
  apply (corpus_parts_round_trip "about:blank" ["Conflict"; "409"; ""; ""] quiet).
  repeat (constructor; [reflexivity|]). constructor.
Defined.

Lemma unmarshalExtension_value_or_error_witness :
  (is_nil (ExtNil (Inst := Inst)) = true
   <-> Some (IndexError 1 (TypeMismatch "map[string]any")) <> None)
  /\ (forall e,
        Some (IndexError 1 (TypeMismatch "map[string]any")) = Some e ->
        exists cause,
          unmarshalMap (JNumber (NInt 42)) = inl cause /\ e = IndexError 1 cause)
  /\ (Some (IndexError 1 (TypeMismatch "map[string]any")) = None ->
      tryRegistered unmarshalInto (registeredExtensions quiet) (JNumber (NInt 42))
      = Some ExtNil
      \/ exists fallback,
           unmarshalMap (JNumber (NInt 42)) = inr fallback
           /\ ExtNil (Inst := Inst) = ExtMap fallback).
Proof.
  apply (unmarshalExtension_value_or_error unmarshalInto (JNumber (NInt 42)) 1
           quiet ExtNil (Some (IndexError 1 (TypeMismatch "map[string]any")))
           quiet).
  reflexivity.
Defined.
